(** * amber.js: the itch.io slideshow widget

    A shallow embedding of [src/amber.js] and the properties of its
    slideshow controller ([showSlide], [nextSlide], [prevSlide],
    [startAuto], [stopAuto], [loadSlides], the event handlers) and of its
    three-tier slide source ([fetchSlidesFromItch]).

    Conventions of the embedding.
    - JavaScript numbers that the script computes with are slide indices and
      timer handles; they are integers far below 2^53 and are modelled by
      [Z].  The remainder operator [%] is truncated remainder, [Z.rem].
    - JavaScript strings are modelled by [string]; a character stands for one
      code unit in the range 0..255.
    - Code that can throw runs in a state-and-exception monad [M] in which
      the state survives a [Throw], as the heap does in JavaScript.
    - The browser (URL constructor, network, HTML parser) is a record of
      functions, [Browser]; theorems quantify over it.

    Limits of the embedding, and where they are stated.
    - Arithmetic is that of [Z].  JavaScript adds in double precision, which
      is exact on integers up to 2^53 in absolute value: a theorem about
      [showSlide(i)] for an arbitrary [i] assumes [exact i] and
      [exact (i + n)].
    - A render target keeps the value assigned to it.  The browser converts
      that value to a string, which throws for an object without a usable
      [toString]: a theorem that says that rendering ends normally assumes
      that the properties shown are not objects ([showable]).
    - The tree has the elements of HTML only.  Inside [svg] and [math] the
      parser makes elements whose [href] is not a string: a theorem that
      relies on [a.href] being a string assumes a page without them
      ([html_only]).
    - Class selectors compare exactly, as in a page with a doctype; a theorem
      that relies on a selector not matching assumes that no class name
      equals the selector's when letter case is ignored ([cell_like]). *)

From Stdlib Require Import ZArith List String Ascii Bool Lia.
Import ListNotations.

Open Scope string_scope.
Open Scope list_scope.
Open Scope Z_scope.

Set Warnings "-register-all".

(* ===================================================================== *)
(** ** Strings: the string operations the script uses *)
(* ===================================================================== *)

Module Str.

Definition code (c : ascii) : N := N_of_ascii c.

Definition in_range (lo hi : N) (c : ascii) : bool :=
  (N.leb lo (code c) && N.leb (code c) hi)%bool.

(** ASCII lower-casing, as the [i] flag of a regular expression compares
    letters. *)
Definition lower (c : ascii) : ascii :=
  if in_range 65 90 c then ascii_of_N (code c + 32) else c.

Fixpoint lowercase (s : string) : string :=
  match s with
  | EmptyString => EmptyString
  | String c r => String (lower c) (lowercase r)
  end.

(** [s.startsWith(p)]. *)
Definition starts_with (p s : string) : bool := String.prefix p s.

(** [s.includes(needle)]: [needle] occurs somewhere in [s]. *)
Fixpoint includes (needle s : string) : bool :=
  if starts_with needle s then true
  else match s with
       | EmptyString => false
       | String _ r => includes needle r
       end.

(** Line terminators, which [.] of a regular expression does not match. *)
Definition is_line_terminator (c : ascii) : bool :=
  (N.eqb (code c) 10 || N.eqb (code c) 13)%bool.

(** White space removed by [String.prototype.trim]. *)
Definition is_js_space (c : ascii) : bool :=
  (in_range 9 13 c || N.eqb (code c) 32 || N.eqb (code c) 160)%bool.

(** White space that separates the tokens of a [class] attribute. *)
Definition is_ascii_space (c : ascii) : bool :=
  (N.eqb (code c) 9 || N.eqb (code c) 10 || N.eqb (code c) 12
   || N.eqb (code c) 13 || N.eqb (code c) 32)%bool.

Fixpoint trim_start (s : string) : string :=
  match s with
  | EmptyString => EmptyString
  | String c r => if is_js_space c then trim_start r else s
  end.

Fixpoint trim_end (s : string) : string :=
  match s with
  | EmptyString => EmptyString
  | String c r =>
      match trim_end r with
      | EmptyString => if is_js_space c then EmptyString else String c EmptyString
      | r' => String c r'
      end
  end.

(** [s.trim()]. *)
Definition trim (s : string) : string := trim_end (trim_start s).

Definition is_empty (s : string) : bool :=
  match s with EmptyString => true | _ => false end.

(** Tokens of a white-space separated list ([class] attribute values). *)
Fixpoint tokens_aux (cur : string) (s : string) : list string :=
  match s with
  | EmptyString => if is_empty cur then [] else [cur]
  | String c r =>
      if is_ascii_space c
      then (if is_empty cur then tokens_aux EmptyString r
            else cur :: tokens_aux EmptyString r)
      else tokens_aux (cur ++ String c EmptyString) r
  end.

Definition tokens (s : string) : list string := tokens_aux EmptyString s.

(** The regular expression [/^https?:\/\//i], line 149. *)
Definition test_http_scheme (s : string) : bool :=
  let l := lowercase s in
  (starts_with "http://" l || starts_with "https://" l)%bool.

(** [s.replace(/^\/\//, '')], line 149: one leading [//] is removed. *)
Definition strip_leading_slashes (s : string) : string :=
  match s with
  | String "/" (String "/" r) => r
  | _ => s
  end.

(** The regular expression [/itch.io/], line 75, matched at the head of
    [s]: the letters [itch], any one character other than a line
    terminator, the letters [io]. *)
Definition itch_io_here (s : string) : bool :=
  match s with
  | String "i" (String "t" (String "c" (String "h"
      (String x (String "i" (String "o" _)))))) =>
      negb (is_line_terminator x)
  | _ => false
  end.

(** [/itch.io/.test(s)]: the pattern matches somewhere in [s]. *)
Fixpoint test_itch_io (s : string) : bool :=
  if itch_io_here s then true
  else match s with
       | EmptyString => false
       | String _ r => test_itch_io r
       end.

Definition hex_digit (n : N) : ascii :=
  if N.ltb n 10 then ascii_of_N (48 + n) else ascii_of_N (55 + n).

(** Characters that [encodeURIComponent] leaves as they are:
    letters, digits and [- _ . ! ~ * ' ( )]. *)
Definition uri_unreserved (c : ascii) : bool :=
  (in_range 65 90 c || in_range 97 122 c || in_range 48 57 c
   || N.eqb (code c) 45 || N.eqb (code c) 95 || N.eqb (code c) 46
   || N.eqb (code c) 33 || N.eqb (code c) 126 || N.eqb (code c) 42
   || N.eqb (code c) 39 || N.eqb (code c) 40 || N.eqb (code c) 41)%bool.

(** [%XY], the escape of the byte [n]. *)
Definition percent (n : N) (rest : string) : string :=
  String "%" (String (hex_digit (N.div n 16))
    (String (hex_digit (N.modulo n 16)) rest)).

(** [encodeURIComponent(s)], line 42: every character other than the
    unreserved ones is replaced by the escapes of the bytes of its UTF-8
    encoding, one byte below 128 and two bytes from 128 to 255. *)
Fixpoint encodeURIComponent (s : string) : string :=
  match s with
  | EmptyString => EmptyString
  | String c r =>
      if uri_unreserved c then String c (encodeURIComponent r)
      else if N.ltb (code c) 128 then percent (code c) (encodeURIComponent r)
      else percent (192 + N.div (code c) 64)
             (percent (128 + N.modulo (code c) 64) (encodeURIComponent r))
  end.

End Str.

(* ===================================================================== *)
(** ** JavaScript values *)
(* ===================================================================== *)

Module Js.

(** The values that reach the slide list: whatever [res.json()] decodes
    (line 47) and the object literals of lines 30, 31 and 86. *)
Inductive value : Type :=
| VUndefined
| VNull
| VBool (b : bool)
| VNum (z : Z)
| VStr (s : string)
| VArr (items : list value)
| VObj (props : list (string * value)).

(** ToBoolean: what [if (v)], [v || w] and [v && w] test. *)
Definition truthy (v : value) : bool :=
  match v with
  | VUndefined | VNull => false
  | VBool b => b
  | VNum z => negb (z =? 0)
  | VStr s => negb (Str.is_empty s)
  | VArr _ | VObj _ => true
  end.

(** [v || w]. *)
Definition or_else (v w : value) : value := if truthy v then v else w.

Fixpoint lookup (k : string) (props : list (string * value)) : value :=
  match props with
  | [] => VUndefined
  | (k', v) :: rest => if String.eqb k k' then v else lookup k rest
  end.

(** [v.k] for the property names the script reads ([title], [desc],
    [img], [url]), none of which a built-in prototype defines: a
    [TypeError] ([None]) on [undefined] and [null], the own property of an
    object, [undefined] on every other value. *)
Definition get_prop (v : value) (k : string) : option value :=
  match v with
  | VUndefined | VNull => None
  | VObj props => Some (lookup k props)
  | _ => Some VUndefined
  end.

(** [arr[i]] for a number [i]: [undefined] outside the array. *)
Definition index (arr : list value) (i : Z) : value :=
  if i <? 0 then VUndefined else nth (Z.to_nat i) arr VUndefined.

(** [a % b] on integers: the sign follows the dividend. *)
Definition rem (a b : Z) : Z := Z.rem a b.

(** [Array.isArray(v) && v.length > 0], line 48. *)
Definition nonempty_array (v : value) : option (list value) :=
  match v with
  | VArr (x :: xs) => Some (x :: xs)
  | _ => None
  end.

End Js.

(* ===================================================================== *)
(** ** Control flow: state that survives exceptions *)
(* ===================================================================== *)

Inductive error : Type :=
| TypeError
| NetworkError
| BodyError
| Error (message : string).

Inductive completion (A : Type) : Type :=
| Normal (a : A)
| Throw (e : error).
Arguments Normal {A} a.
Arguments Throw {A} e.

(** A computation over a mutable state [S]: it ends normally with a value or
    throws, and in both cases leaves a state behind. *)
Definition M (S A : Type) : Type := S -> completion A * S.

Definition ret {S A} (a : A) : M S A := fun s => (Normal a, s).

Definition throw {S A} (e : error) : M S A := fun s => (Throw e, s).

Definition bind {S A B} (c : M S A) (k : A -> M S B) : M S B :=
  fun s =>
    match c s with
    | (Normal a, s') => k a s'
    | (Throw e, s') => (Throw e, s')
    end.

(** [try { c } catch (err) { h err }]. *)
Definition try_catch {S A} (c : M S A) (h : error -> M S A) : M S A :=
  fun s =>
    match c s with
    | (Normal a, s') => (Normal a, s')
    | (Throw e, s') => h e s'
    end.

Definition gets {S A} (f : S -> A) : M S A := fun s => (Normal (f s), s).

Definition modify {S} (f : S -> S) : M S unit := fun s => (Normal tt, f s).

(** An operation of the platform that can fail: [None] is the exception. *)
Definition lift_option {S A} (e : error) (o : option A) : M S A :=
  match o with
  | Some a => ret a
  | None => throw e
  end.

Declare Scope js_scope.
Delimit Scope js_scope with js.
Notation "x <- c ;; k" := (bind c (fun x => k))
  (at level 61, c at next level, right associativity) : js_scope.
Notation "c ;; k" := (bind c (fun _ => k))
  (at level 61, right associativity) : js_scope.
Open Scope js_scope.

(* ===================================================================== *)
(** ** The document tree the HTML parser hands to the script *)
(* ===================================================================== *)

Module Dom.

(** Tag and attribute names are as the HTML parser leaves them: in lower
    case, an element keeping the first of several attributes of one name.
    The elements are HTML elements; the elements the parser makes inside
    [svg] and [math] are not modelled. *)
Inductive node : Type :=
| Element (tag : string) (attrs : list (string * string)) (children : list node)
| Text (data : string).

(** An element of a document: the element and its ancestors, the parent
    first.  This is what [querySelectorAll] yields and what [closest]
    walks. *)
Record located : Type := { ancestors : list node; self : node }.

(** A parsed document.  [baseURI] is the URL against which the document
    resolves the URLs of its elements.  For a document made by [DOMParser]
    this is the URL of the page that runs the script (or what a [base]
    element of the markup says), not the address the markup was fetched
    from. *)
Record document : Type := { baseURI : string; childNodes : list node }.

Definition children (n : node) : list node :=
  match n with
  | Element _ _ cs => cs
  | Text _ => []
  end.

Fixpoint assoc (name : string) (attrs : list (string * string)) : option string :=
  match attrs with
  | [] => None
  | (k, v) :: rest => if String.eqb name k then Some v else assoc name rest
  end.

(** [el.getAttribute(name)]. *)
Definition getAttribute (n : node) (name : string) : option string :=
  match n with
  | Element _ attrs _ => assoc name attrs
  | Text _ => None
  end.

(** [el.textContent]: the text of all descendants, in tree order. *)
Fixpoint textContent (n : node) : string :=
  match n with
  | Text d => d
  | Element _ _ cs =>
      (fix all (l : list node) : string :=
         match l with
         | [] => EmptyString
         | c :: r => (textContent c ++ all r)%string
         end) cs
  end.

(** The elements of the tree below and including [n], in tree order, each
    with its ancestors; [anc] are the ancestors of [n]. *)
Fixpoint subtree (anc : list node) (n : node) {struct n} : list located :=
  match n with
  | Text _ => []
  | Element _ _ cs =>
      {| ancestors := anc; self := n |} ::
      (fix all (l : list node) : list located :=
         match l with
         | [] => []
         | c :: r => subtree (n :: anc) c ++ all r
         end) cs
  end.

(** The element descendants of an element, in tree order. *)
Definition descendants (l : located) : list located :=
  flat_map (subtree (self l :: ancestors l)) (children (self l)).

(** The two kinds of selector the script uses: [.name] and a tag name. *)
Inductive selector : Type :=
| ByClass (name : string)
| ByTag (name : string).

Definition classList (n : node) : list string :=
  match getAttribute n "class" with
  | Some v => Str.tokens v
  | None => []
  end.

(** [el.matches(sel)], in a page with a doctype (without one, class names
    are compared ignoring the case of ASCII letters). *)
Definition matches (sel : selector) (n : node) : bool :=
  match n with
  | Text _ => false
  | Element tag _ _ =>
      match sel with
      | ByTag t => String.eqb tag t
      | ByClass c => existsb (String.eqb c) (classList n)
      end
  end.

(** [doc.querySelectorAll(sel)]. *)
Definition querySelectorAll (d : document) (sel : selector) : list located :=
  filter (fun l => matches sel (self l)) (flat_map (subtree []) (childNodes d)).

(** [el.querySelector(sel)]: the first matching descendant, or [null]. *)
Definition querySelector (l : located) (sel : selector) : option located :=
  hd_error (filter (fun d => matches sel (self d)) (descendants l)).

Fixpoint closest_in (chain : list node) (sel : selector) : option located :=
  match chain with
  | [] => None
  | n :: rest =>
      if matches sel n then Some {| ancestors := rest; self := n |}
      else closest_in rest sel
  end.

(** [el.closest(sel)]: the element itself or its nearest ancestor that
    matches, or [null]. *)
Definition closest (l : located) (sel : selector) : option located :=
  closest_in (self l :: ancestors l) sel.

(** An attribute that reflects a URL ([a.href], [img.src]): the empty
    string when the attribute is absent; otherwise the attribute resolved
    against the base URL of the document, or the attribute as written when
    it does not resolve. *)
Definition reflect_url (resolve : string -> string -> option string)
    (base : string) (n : node) (name : string) : string :=
  match getAttribute n name with
  | None => EmptyString
  | Some v =>
      match resolve v base with
      | Some h => h
      | None => v
      end
  end.

(** [el.title]: the attribute, or the empty string. *)
Definition title (n : node) : string :=
  match getAttribute n "title" with
  | Some v => v
  | None => EmptyString
  end.

End Dom.

(* ===================================================================== *)
(** ** The browser *)
(* ===================================================================== *)

(** What the script sees of a [Response]: [res.ok], and the outcomes of
    [res.json()] and [res.text()], [None] when the promise rejects. *)
Record Response : Type := {
  ok : bool;
  json : option Js.value;
  text : option string
}.

(** The platform functions the script calls.
    - [URL_href src base] is [new URL(src, base).href], [None] when the
      constructor throws.
    - [fetch u] is the outcome of [await fetch(u)], [None] when it rejects.
    - [parseFromString t] is [new DOMParser().parseFromString(t, 'text/html')],
      which never throws. *)
Record Browser : Type := {
  URL_href : string -> string -> option string;
  fetch : string -> option Response;
  parseFromString : string -> Dom.document
}.

(* ===================================================================== *)
(** ** The script: constants and the slide source (lines 13 to 95) *)
(* ===================================================================== *)

Import Js.

Definition DEFAULT_ITCH_URL : string := "https://ducky-dev.itch.io".
Definition AUTO_INTERVAL_MS : Z := 5000.
Definition API_ENDPOINT : string := "/api/slides".

(** The object literal [{ title: t, desc: d, img: i, url: u }]. *)
Definition slide (t d i u : value) : value :=
  VObj [("title", t); ("desc", d); ("img", i); ("url", u)].

Definition sampleSlides : list value :=
  [ slide (VStr "Sample Game 1") (VStr "A sample game fallback")
      (VStr "BG.jpg") (VStr "https://ducky-dev.itch.io");
    slide (VStr "Sample Game 2") (VStr "Second sample")
      (VStr "BG.jpg") (VStr "https://ducky-dev.itch.io") ].

(** [try { return new URL(src, base).href; } catch (e) { return src; }] *)
Definition absUrl (w : Browser) (src base : string) : string :=
  match URL_href w src base with
  | Some href => href
  | None => src
  end.

(** The network requests issued so far, oldest first: the only effect of the
    slide source that the properties below observe.  (The script also writes
    diagnostics to the console; they are left out.) *)
Definition requests : Type := list string.

(** [await fetch(u)]. *)
Definition do_fetch (w : Browser) (u : string) : M requests Response :=
  fun log =>
    (match fetch w u with
     | Some res => Normal res
     | None => Throw NetworkError
     end, log ++ [u]).

(** The address of the proxy request, line 42. *)
Definition apiUrl (url : string) : string :=
  (API_ENDPOINT ++ "?url=" ++ Str.encodeURIComponent url)%string.

(** Lines 40 to 55.  [Some slides] stands for the [return slides] of line
    50, [None] for leaving the [try] statement without returning. *)
Definition proxy_tier (w : Browser) (url : string)
  : M requests (option (list value)) :=
  try_catch
    (res <- do_fetch w (apiUrl url) ;;
     if ok res then
       slides <- lift_option BodyError (json res) ;;
       match nonempty_array slides with
       | Some arr => ret (Some arr)
       | None => ret None
       end
     else ret None)
    (fun err => ret None).

Definition selectors : list Dom.selector :=
  [ Dom.ByClass "game-column"; Dom.ByClass "game_column";
    Dom.ByClass "game_cell"; Dom.ByClass "project_cell";
    Dom.ByClass "game_cell_wrapper" ].

Definition is_nil {A} (l : list A) : bool :=
  match l with [] => true | _ => false end.

(** The loop of lines 67 to 71: the matches of the first selector that has
    any. *)
Fixpoint first_matching (doc : Dom.document) (sels : list Dom.selector)
  : list Dom.located :=
  match sels with
  | [] => []
  | s :: rest =>
      let n := Dom.querySelectorAll doc s in
      if is_nil n then first_matching doc rest else n
  end.

(** [a.href] and [img.src] of an element of [doc]. *)
Definition href (w : Browser) (doc : Dom.document) (a : Dom.located) : string :=
  Dom.reflect_url (URL_href w) (Dom.baseURI doc) (Dom.self a) "href".

Definition src (w : Browser) (doc : Dom.document) (img : Dom.located) : string :=
  Dom.reflect_url (URL_href w) (Dom.baseURI doc) (Dom.self img) "src".

(** The filter of line 75:
    [/itch.io/.test(a.href) || a.href.includes('/games/')]. *)
Definition game_link (w : Browser) (doc : Dom.document) (a : Dom.located) : bool :=
  (Str.test_itch_io (href w doc a) || Str.includes "/games/" (href w doc a))%bool.

(** Lines 67 to 76: the nodes to turn into slides. *)
Definition matched_nodes (w : Browser) (doc : Dom.document) : list Dom.located :=
  let nodes := first_matching doc selectors in
  if is_nil nodes
  then filter (game_link w doc) (Dom.querySelectorAll doc (Dom.ByTag "a"))
  else nodes.

(** [e && f(e)] for an element or [null] [e]. *)
Definition and_then (e : option Dom.located) (f : Dom.located -> value) : value :=
  match e with
  | Some x => f x
  | None => VNull
  end.

Definition trimmed_text (e : Dom.located) : value :=
  VStr (Str.trim (Dom.textContent (Dom.self e))).

(** Line 80: [node.querySelector('a') || node.closest('a')]. *)
Definition anchor_of (node : Dom.located) : option Dom.located :=
  match Dom.querySelector node (Dom.ByTag "a") with
  | Some a => Some a
  | None => Dom.closest node (Dom.ByTag "a")
  end.

(** Line 81: [a ? a.href : url]. *)
Definition node_href (w : Browser) (doc : Dom.document) (url : string)
    (node : Dom.located) : string :=
  match anchor_of node with
  | Some a => href w doc a
  | None => url
  end.

(** Lines 82, 85 and 86: the image of the slide. *)
Definition node_img (w : Browser) (doc : Dom.document) (url : string)
    (node : Dom.located) : string :=
  let img := Dom.querySelector node (Dom.ByTag "img") in
  let imgsrc := and_then img (fun i => VStr (src w doc i)) in
  match imgsrc with
  | VStr s => if Str.is_empty s then "BG.jpg" else absUrl w s url
  | _ => "BG.jpg"
  end.

(** The callback of [map], lines 78 to 87. *)
Definition candidate (w : Browser) (doc : Dom.document) (url : string)
    (node : Dom.located) : value :=
  let a := anchor_of node in
  let title :=
    or_else
      (or_else
         (or_else
            (and_then (Dom.querySelector node (Dom.ByClass "title")) trimmed_text)
            (and_then a (fun a => VStr (Dom.title (Dom.self a)))))
         (and_then a trimmed_text))
      (VStr "Untitled") in
  let desc :=
    or_else
      (and_then (Dom.querySelector node (Dom.ByClass "description")) trimmed_text)
      (VStr "") in
  slide title desc (VStr (node_img w doc url node)) (VStr (node_href w doc url node)).

(** The callback of [filter], line 87: [s && s.url]. *)
Definition has_url (s : value) : bool :=
  if truthy s then
    match get_prop s "url" with
    | Some u => truthy u
    | None => false
    end
  else false.

(** Lines 78 to 87. *)
Definition parsed (w : Browser) (doc : Dom.document) (url : string)
    (nodes : list Dom.located) : list value :=
  filter has_url (map (candidate w doc url) (firstn 12 nodes)).

(** The body of the second [try], lines 59 to 90. *)
Definition direct_fetch (w : Browser) (url : string) : M requests (list value) :=
  res <- do_fetch w url ;;
  if negb (ok res) then throw (Error "Network response not ok")
  else
    text <- lift_option BodyError (text res) ;;
    let doc := parseFromString w text in
    let nodes := matched_nodes w doc in
    let slides := parsed w doc url nodes in
    if is_nil slides then throw (Error "No slides found")
    else ret slides.

(** Lines 58 to 94. *)
Definition direct_tier (w : Browser) (url : string) : M requests (list value) :=
  try_catch (direct_fetch w url) (fun err => ret sampleSlides).

(** [fetchSlidesFromItch(url)], lines 39 to 95. *)
Definition fetchSlidesFromItch (w : Browser) (url : string)
  : M requests (list value) :=
  early <- proxy_tier w url ;;
  match early with
  | Some slides => ret slides
  | None => direct_tier w url
  end.

(* ===================================================================== *)
(** ** The script: the slideshow controller (lines 17 to 165) *)
(* ===================================================================== *)

(** The render targets of lines 17 to 20, with the properties the script
    writes.  A property holds the value the script assigns to it; the
    conversion of that value to text is the browser's. *)
Record View : Type := {
  img_animation : string;
  title_animation : string;
  desc_animation : string;
  title_textContent : value;
  desc_textContent : value;
  img_src : value;
  img_alt : value;
  link_href : value
}.

(** The variables of lines 23 to 26, the render targets, and the part of
    the browser's state the script acts on: the repeating timers it has
    scheduled and not cleared ([intervals]), the handle the next
    [setInterval] returns ([next_handle]; handles are positive), and the
    source URLs of the calls of [loadSlides] that still wait for their
    slides ([loading]). *)
Record state : Type := {
  slides : list value;
  current : Z;
  timer : value;
  itchUrl : string;
  view : View;
  intervals : list Z;
  next_handle : Z;
  loading : list string
}.

Definition set_slides (l : list value) (s : state) : state :=
  {| slides := l; current := current s; timer := timer s; itchUrl := itchUrl s;
     view := view s; intervals := intervals s; next_handle := next_handle s;
     loading := loading s |}.

Definition set_current (i : Z) (s : state) : state :=
  {| slides := slides s; current := i; timer := timer s; itchUrl := itchUrl s;
     view := view s; intervals := intervals s; next_handle := next_handle s;
     loading := loading s |}.

Definition set_timer (t : value) (s : state) : state :=
  {| slides := slides s; current := current s; timer := t; itchUrl := itchUrl s;
     view := view s; intervals := intervals s; next_handle := next_handle s;
     loading := loading s |}.

Definition set_itchUrl (u : string) (s : state) : state :=
  {| slides := slides s; current := current s; timer := timer s; itchUrl := u;
     view := view s; intervals := intervals s; next_handle := next_handle s;
     loading := loading s |}.

Definition set_view (v : View) (s : state) : state :=
  {| slides := slides s; current := current s; timer := timer s; itchUrl := itchUrl s;
     view := v; intervals := intervals s; next_handle := next_handle s;
     loading := loading s |}.

Definition set_intervals (l : list Z) (h : Z) (s : state) : state :=
  {| slides := slides s; current := current s; timer := timer s; itchUrl := itchUrl s;
     view := view s; intervals := l; next_handle := h;
     loading := loading s |}.

Definition set_loading (l : list string) (s : state) : state :=
  {| slides := slides s; current := current s; timer := timer s; itchUrl := itchUrl s;
     view := view s; intervals := intervals s; next_handle := next_handle s;
     loading := l |}.

(** Lines 103 to 105 and 110 to 112: the three animation styles. *)
Definition animate (a : string) (v : View) : View :=
  {| img_animation := a; title_animation := a; desc_animation := a;
     title_textContent := title_textContent v;
     desc_textContent := desc_textContent v;
     img_src := img_src v; img_alt := img_alt v; link_href := link_href v |}.

(** Lines 114 to 118. *)
Definition write_title (x : value) (v : View) : View :=
  {| img_animation := img_animation v; title_animation := title_animation v;
     desc_animation := desc_animation v;
     title_textContent := x; desc_textContent := desc_textContent v;
     img_src := img_src v; img_alt := img_alt v; link_href := link_href v |}.

Definition write_desc (x : value) (v : View) : View :=
  {| img_animation := img_animation v; title_animation := title_animation v;
     desc_animation := desc_animation v;
     title_textContent := title_textContent v; desc_textContent := x;
     img_src := img_src v; img_alt := img_alt v; link_href := link_href v |}.

Definition write_src (x : value) (v : View) : View :=
  {| img_animation := img_animation v; title_animation := title_animation v;
     desc_animation := desc_animation v;
     title_textContent := title_textContent v;
     desc_textContent := desc_textContent v;
     img_src := x; img_alt := img_alt v; link_href := link_href v |}.

Definition write_alt (x : value) (v : View) : View :=
  {| img_animation := img_animation v; title_animation := title_animation v;
     desc_animation := desc_animation v;
     title_textContent := title_textContent v;
     desc_textContent := desc_textContent v;
     img_src := img_src v; img_alt := x; link_href := link_href v |}.

Definition write_href (x : value) (v : View) : View :=
  {| img_animation := img_animation v; title_animation := title_animation v;
     desc_animation := desc_animation v;
     title_textContent := title_textContent v;
     desc_textContent := desc_textContent v;
     img_src := img_src v; img_alt := img_alt v; link_href := x |}.

Definition render (f : View -> View) : M state unit :=
  modify (fun s => set_view (f (view s)) s).

(** [s.k], which throws a [TypeError] when [s] is [undefined] or [null]. *)
Definition prop (s : value) (k : string) : M state value :=
  lift_option TypeError (get_prop s k).

(** [showSlide(i)], lines 97 to 119. *)
Definition showSlide (i : Z) : M state unit :=
  sl <- gets slides ;;
  if is_nil sl then ret tt
  else
    (let n := Z.of_nat (List.length sl) in
     modify (set_current (Js.rem (i + n) n)) ;;
     cur <- gets current ;;
     let s := index sl cur in
     render (animate "none") ;;
     render (animate "") ;;
     t <- prop s "title" ;;
     render (write_title (or_else t (VStr ""))) ;;
     d <- prop s "desc" ;;
     render (write_desc (or_else d (VStr ""))) ;;
     im <- prop s "img" ;;
     render (write_src (or_else im (VStr "BG.jpg"))) ;;
     t' <- prop s "title" ;;
     render (write_alt (or_else t' (VStr "Slide image"))) ;;
     u <- prop s "url" ;;
     fallback <- gets itchUrl ;;
     render (write_href (or_else u (VStr fallback)))).

Definition nextSlide : M state unit :=
  cur <- gets current ;; showSlide (cur + 1).

Definition prevSlide : M state unit :=
  cur <- gets current ;; showSlide (cur - 1).

(** [clearInterval(t)]: the timer with handle [t] is no longer scheduled;
    no effect when [t] is not the handle of a scheduled timer. *)
Definition clearInterval (t : value) : M state unit :=
  match t with
  | VNum h =>
      modify (fun s =>
        set_intervals (filter (fun k => negb (k =? h)) (intervals s))
          (next_handle s) s)
  | _ => ret tt
  end.

(** [setInterval(nextSlide, AUTO_INTERVAL_MS)]: schedules one more timer
    and returns its handle. *)
Definition setInterval : M state value :=
  h <- gets next_handle ;;
  modify (fun s => set_intervals (intervals s ++ [h]) (h + 1) s) ;;
  ret (VNum h).

(** [stopAuto()], lines 128 to 130. *)
Definition stopAuto : M state unit :=
  t <- gets timer ;;
  if truthy t then (clearInterval t ;; modify (set_timer VNull))
  else ret tt.

(** [startAuto()], lines 124 to 127. *)
Definition startAuto : M state unit :=
  stopAuto ;;
  h <- setInterval ;;
  modify (set_timer h).

(** [loadSlides(forUrl)] up to its [await], lines 133 and 134: the source
    URL is set and the fetch of the slides begins. *)
Definition loadSlides_begin (forUrl : string) : M state unit :=
  modify (fun s => set_itchUrl (if Str.is_empty forUrl then itchUrl s else forUrl) s) ;;
  u <- gets itchUrl ;;
  modify (fun s => set_loading (loading s ++ [u]) s).

(** [loadSlides] from the moment the slides arrive, lines 134 to 136. *)
Definition loadSlides_resume (fetched : list value) : M state unit :=
  modify (set_slides fetched) ;;
  showSlide 0 ;;
  startAuto.

(** Lines 148 and 149. *)
Definition normalize (input : string) : string :=
  if Str.test_http_scheme input then input
  else ("https://" ++ Str.strip_leading_slashes input)%string.

(** Lines 145 to 151: the argument with which the F2 branch calls
    [loadSlides], [None] when it does not call it.  [answer] is what
    [prompt] returns: [None] for [null] (the dialog was cancelled). *)
Definition prompted_url (answer : option string) : option string :=
  match answer with
  | Some input => if Str.is_empty input then None else Some (normalize input)
  | None => None
  end.

Definition when {S} (b : bool) (c : M S unit) : M S unit :=
  if b then c else ret tt.

(** The [keydown] handler, lines 140 to 153. *)
Definition on_keydown (key : string) (answer : option string) : M state unit :=
  when (String.eqb key "ArrowRight") (nextSlide ;; startAuto) ;;
  when (String.eqb key "ArrowLeft") (prevSlide ;; startAuto) ;;
  when (String.eqb key "F2")
    match prompted_url answer with
    | Some normalized => loadSlides_begin normalized
    | None => ret tt
    end.

Fixpoint remove_nth {A} (k : nat) (l : list A) : list A :=
  match k, l with
  | _, [] => []
  | O, _ :: r => r
  | S k', x :: r => x :: remove_nth k' r
  end.

(** What the browser delivers to the script. *)
Inductive event : Type :=
| KeyDown (key : string) (answer : option string)
| MouseEnter
| MouseLeave
| WindowLoad
| Tick (h : Z)
| Arrival (k : nat) (w : Browser).

(** The script's reaction to an event.
    - [Tick h]: the timer [h] fires, if it is still scheduled.
    - [Arrival k w]: the [k]-th waiting call of [loadSlides] gets its
      slides, fetched in the browser [w]; a rejected fetch would end that
      call of [loadSlides]. *)
Definition handle (e : event) : M state unit :=
  match e with
  | KeyDown key answer => on_keydown key answer
  | MouseEnter => stopAuto
  | MouseLeave => startAuto
  | WindowLoad => loadSlides_begin DEFAULT_ITCH_URL
  | Tick h =>
      active <- gets intervals ;;
      when (existsb (Z.eqb h) active) nextSlide
  | Arrival k w =>
      waiting <- gets loading ;;
      match nth_error waiting k with
      | None => ret tt
      | Some url =>
          modify (set_loading (remove_nth k waiting)) ;;
          match fst (fetchSlidesFromItch w url []) with
          | Normal fetched => loadSlides_resume fetched
          | Throw e => throw e
          end
      end
  end.

(** The state after an event; an exception that escapes a handler ends the
    handler and leaves the state as it is then. *)
Definition step (e : event) (s : state) : state := snd (handle e s).

(** The state when the script has run to its end, before any event: lines
    23 to 26; [v] is the content of the render targets in the page and [h]
    the handle the browser will give to the first timer. *)
Definition initial (v : View) (h : Z) : state :=
  {| slides := []; current := 0; timer := VNull; itchUrl := DEFAULT_ITCH_URL;
     view := v; intervals := []; next_handle := h; loading := [] |}.

Inductive reachable : state -> Prop :=
| reach_initial v h : 0 < h -> reachable (initial v h)
| reach_step e s : reachable s -> reachable (step e s).

(* ===================================================================== *)
(** ** A browser to run examples in *)
(* ===================================================================== *)

Module Example.

(** A URL resolver for the examples.  It follows the URL Standard on the
    inputs used below: [http] and [https] URLs written in lower case, made
    of a host and a path of plain segments (no query, fragment, dot
    segments, port, credentials or characters that need escaping). *)
Fixpoint drop (n : nat) (s : string) : string :=
  match n, s with
  | O, _ => s
  | S n', String _ r => drop n' r
  | S _, EmptyString => EmptyString
  end.

(** The scheme and what follows [://]. *)
Definition split_scheme (s : string) : option (string * string) :=
  if Str.starts_with "https://" s then Some ("https", drop 8 s)
  else if Str.starts_with "http://" s then Some ("http", drop 7 s)
  else None.

(** The host and the path: the path starts at the first [/]. *)
Fixpoint split_host (s : string) : string * string :=
  match s with
  | EmptyString => (EmptyString, EmptyString)
  | String c r =>
      if Ascii.eqb c "/" then (EmptyString, s)
      else let (h, p) := split_host r in (String c h, p)
  end.

(** The path up to and including its last [/]. *)
Fixpoint directory (path : string) : string :=
  match path with
  | EmptyString => EmptyString
  | String c r =>
      match directory r with
      | EmptyString => if Ascii.eqb c "/" then "/" else EmptyString
      | d => String c d
      end
  end.

Definition serialize (scheme host path : string) : option string :=
  if Str.is_empty host then None
  else Some (scheme ++ "://" ++ host ++ (if Str.is_empty path then "/" else path))%string.

Definition resolve (rel base : string) : option string :=
  match split_scheme rel with
  | Some (scheme, rest) =>
      let (host, path) := split_host rest in serialize scheme host path
  | None =>
      match split_scheme base with
      | None => None
      | Some (scheme, rest) =>
          let (host, bpath) := split_host rest in
          if Str.is_empty host then None
          else if Str.starts_with "//" rel then
            let (host', path') := split_host (drop 2 rel) in
            serialize scheme host' path'
          else if Str.starts_with "/" rel then serialize scheme host rel
          else serialize scheme host
                 (directory (if Str.is_empty bpath then "/" else bpath) ++ rel)
      end
  end.

Definition blank_view : View :=
  {| img_animation := ""; title_animation := ""; desc_animation := "";
     title_textContent := VStr ""; desc_textContent := VStr "";
     img_src := VStr ""; img_alt := VStr ""; link_href := VStr "" |}.

(** A browser with no network: every fetch rejects. *)
Definition offline : Browser :=
  {| URL_href := resolve;
     fetch := fun _ => None;
     parseFromString := fun _ => {| Dom.baseURI := "https://widget.example/"; Dom.childNodes := [] |} |}.

(** The document the HTML parser builds from the markup of a page body. *)
Definition page (base : string) (body : list Dom.node) : Dom.document :=
  {| Dom.baseURI := base;
     Dom.childNodes :=
       [Dom.Element "html" []
          [Dom.Element "head" [] []; Dom.Element "body" [] body]] |}.

(** A browser showing the widget at [https://widget.example/], whose proxy
    request rejects and in which the address [url] serves [markup], parsed
    into the nodes [body]. *)
Definition serving (url markup : string) (body : list Dom.node) : Browser :=
  {| URL_href := resolve;
     fetch := fun u =>
       if String.eqb u url
       then Some {| ok := true; json := None; text := Some markup |}
       else None;
     parseFromString := fun t =>
       page "https://widget.example/"
         (if String.eqb t markup then body else [Dom.Text t]) |}.

(** A page with one game cell that holds an image with a relative source. *)
Definition image_markup : string :=
  "<div class='game_cell'><img src='img/a.png'></div>".

Definition image_body : list Dom.node :=
  [Dom.Element "div" [("class", "game_cell")]
     [Dom.Element "img" [("src", "img/a.png")] []]].

Definition image_browser : Browser :=
  serving "https://site.example/list" image_markup image_body.

(** The same page seen by a widget that is itself served from
    [https://site.example/]. *)
Definition same_site_browser : Browser :=
  {| URL_href := resolve;
     fetch := fetch image_browser;
     parseFromString := fun _ => page "https://site.example/" image_body |}.

(** A page without game cells and without links. *)
Definition plain_markup : string := "<p>Nothing here</p>".

Definition plain_body : list Dom.node :=
  [Dom.Element "p" [] [Dom.Text "Nothing here"]].

Definition plain_browser : Browser :=
  serving "https://site.example/list" plain_markup plain_body.

(** A page with two game cells; the link of the first has no [href]. *)
Definition cells_markup : string :=
  "<div class='game_cell'><a>Soon</a></div><div class='game_cell'><a href='https://x.itch.io/g'>G</a></div>".

Definition cells_body : list Dom.node :=
  [Dom.Element "div" [("class", "game_cell")]
     [Dom.Element "a" [] [Dom.Text "Soon"]];
   Dom.Element "div" [("class", "game_cell")]
     [Dom.Element "a" [("href", "https://x.itch.io/g")] [Dom.Text "G"]]].

Definition cells_browser : Browser :=
  serving "https://site.example/list" cells_markup cells_body.

(** A browser whose proxy answers with one slide. *)
Definition proxied_slide : value :=
  slide (VStr "A") (VStr "d") (VStr "i.png") (VStr "https://x").

Definition proxy_browser : Browser :=
  {| URL_href := resolve;
     fetch := fun u =>
       if String.eqb u (apiUrl "https://site.example/list")
       then Some {| ok := true; json := Some (VArr [proxied_slide]); text := None |}
       else None;
     parseFromString := fun _ => page "https://widget.example/" [] |}.

(** A slideshow that shows the first of three slides. *)
Definition three : state :=
  {| slides := [proxied_slide; proxied_slide; proxied_slide]; current := 0;
     timer := VNum 1; itchUrl := DEFAULT_ITCH_URL; view := blank_view;
     intervals := [1]; next_handle := 2; loading := [] |}.

End Example.

(* ===================================================================== *)
(** ** Invariants *)
(* ===================================================================== *)

(** A property of the state that a computation keeps, however it ends. *)
Definition keeps {S A} (P : S -> Prop) (c : M S A) : Prop :=
  forall s, P s -> P (snd (c s)).

(** The number of slides, [slides.length]. *)
Definition count (s : state) : Z := Z.of_nat (List.length (slides s)).

(** The index invariant: when there are slides, [current] is the index of
    one of them. *)
Definition index_ok (s : state) : Prop :=
  slides s <> [] -> 0 <= current s < count s.

(** The timer invariant: the timers the script has scheduled and not
    cleared are exactly the one whose handle [timer] holds, if any; handles
    are positive and below the next one the browser gives out. *)
Definition timer_ok (s : state) : Prop :=
  0 < next_handle s /\
  ((timer s = VNull /\ intervals s = []) \/
   (exists h, timer s = VNum h /\ intervals s = [h] /\ 0 < h < next_handle s)).

(** The state of the slide list and of the render targets while there are
    no slides. *)
Definition unrendered (v : View) (s : state) : Prop :=
  slides s = [] /\ view s = v.

(** A property of the state that the timer, the source URL and the waiting
    loads do not bear on. *)
Definition stable (P : state -> Prop) : Prop :=
  (forall t s, P s -> P (set_timer t s)) /\
  (forall l h s, P s -> P (set_intervals l h s)) /\
  (forall u s, P s -> P (set_itchUrl u s)) /\
  (forall l s, P s -> P (set_loading l s)).

(** The ways the proxy tier fails, for the request of line 44: the fetch
    rejects; the status is not a success; the body does not decode; it
    decodes to something other than a non-empty array. *)
Inductive proxy_failure (w : Browser) (url : string) : Prop :=
| proxy_rejects :
    fetch w (apiUrl url) = None -> proxy_failure w url
| proxy_not_ok res :
    fetch w (apiUrl url) = Some res -> ok res = false -> proxy_failure w url
| proxy_no_json res :
    fetch w (apiUrl url) = Some res -> ok res = true -> json res = None ->
    proxy_failure w url
| proxy_no_array res v :
    fetch w (apiUrl url) = Some res -> ok res = true -> json res = Some v ->
    nonempty_array v = None -> proxy_failure w url.

(** The proxy tier succeeds with the array [arr]. *)
Definition proxy_success (w : Browser) (url : string) (arr : list value) : Prop :=
  exists res, fetch w (apiUrl url) = Some res /\ ok res = true /\
              json res = Some (VArr arr) /\ arr <> [].

(** The [url] property of a slide object. *)
Definition url_of (s : value) : value :=
  match get_prop s "url" with
  | Some u => u
  | None => VUndefined
  end.

Definition title_of (s : value) : value :=
  match get_prop s "title" with
  | Some u => u
  | None => VUndefined
  end.

Definition img_of (s : value) : value :=
  match get_prop s "img" with
  | Some u => u
  | None => VUndefined
  end.

(* ===================================================================== *)
(** ** Further notions used to describe the script *)
(* ===================================================================== *)

(** [undefined] and [null]: the values whose properties cannot be read. *)
Definition nullish (v : value) : bool :=
  match v with
  | VUndefined | VNull => true
  | _ => false
  end.

(** [v.k] where it can be read. *)
Definition field (v : value) (k : string) : value :=
  match get_prop v k with
  | Some x => x
  | None => VUndefined
  end.

(** The index line 99 computes, and the entry line 100 reads. *)
Definition wrapped (i : Z) (s : state) : Z := Js.rem (i + count s) (count s).

Definition selected (i : Z) (s : state) : value := index (slides s) (wrapped i s).

(** What lines 103 to 118 leave in the render targets when they show the
    entry [v] while the source URL is [fallback]. *)
Definition rendered (v : value) (fallback : string) : View :=
  {| img_animation := ""; title_animation := ""; desc_animation := "";
     title_textContent := or_else (field v "title") (VStr "");
     desc_textContent := or_else (field v "desc") (VStr "");
     img_src := or_else (field v "img") (VStr "BG.jpg");
     img_alt := or_else (field v "title") (VStr "Slide image");
     link_href := or_else (field v "url") (VStr fallback) |}.

(** [k] presses of the right arrow, as far as the slides go. *)
Definition advance (k : nat) (s : state) : state :=
  Nat.iter k (fun s' => snd (nextSlide s')) s.

(** A slide as the script itself builds them: four strings, the title and
    the link target not empty. *)
Definition well_formed (v : value) : Prop :=
  exists t d i u,
    v = slide (VStr t) (VStr d) (VStr i) (VStr u) /\
    t <> EmptyString /\ u <> EmptyString.

(** The source URL and the URLs being fetched are never empty. *)
Definition source_ok (s : state) : Prop :=
  itchUrl s <> EmptyString /\ Forall (fun u => u <> EmptyString) (loading s).

(** A value is a string or [null]: what the parts of the title chain of
    line 83 evaluate to. *)
Definition string_or_null (v : value) : Prop :=
  v = VNull \/ exists x, v = VStr x.

(** A browser whose proxy answers every request with the array [[null]]. *)
Definition null_proxy_browser : Browser :=
  {| URL_href := Example.resolve;
     fetch := fun _ =>
       Some {| ok := true; json := Some (VArr [VNull]); text := None |};
     parseFromString := fun _ => Example.page "https://widget.example/" [] |}.




(* ===================================================================== *)
(** ** The scope of the embedding *)
(* ===================================================================== *)

(** An integer that a JavaScript number holds exactly: up to 2^53 in
    absolute value.  A sum of two such integers that is itself of this kind
    is computed exactly. *)
Definition exact (z : Z) : Prop :=
  - 9007199254740992 <= z <= 9007199254740992.

(** A value that is not an object: the browser converts it to a string
    without calling any method of it, so the conversion cannot throw. *)
Definition plain (v : value) : bool :=
  match v with
  | VArr _ | VObj _ => false
  | _ => true
  end.

(** An entry of the slide list whose four properties, as far as it has
    them, are not objects: lines 114 to 118 can hand them to the render
    targets. *)
Definition showable (v : value) : Prop :=
  plain (field v "title") = true /\ plain (field v "desc") = true /\
  plain (field v "img") = true /\ plain (field v "url") = true.


(** A page without [svg] and [math] elements: all its elements are HTML
    elements, so that [a.href] and [img.src] are strings. *)
Definition html_only (doc : Dom.document) : Prop :=
  Dom.querySelectorAll doc (Dom.ByTag "svg") = [] /\
  Dom.querySelectorAll doc (Dom.ByTag "math") = [].



(** A slideshow whose second entry is [null]. *)
Definition with_null : state :=
  {| slides := [Example.proxied_slide; VNull]; current := 0;
     timer := VNum 1; itchUrl := DEFAULT_ITCH_URL; view := Example.blank_view;
     intervals := [1]; next_handle := 2; loading := [] |}.

(* ===================================================================== *)
(** ** Reasoning about computations *)
(* ===================================================================== *)

(** The state a sequence leaves behind: the state at the throw, or the
    state after the continuation. *)
Lemma snd_bind {S A B} (Q : S -> Prop) (c : M S A) (k : A -> M S B) (s : S) :
  (forall e, fst (c s) = Throw e -> Q (snd (c s))) ->
  (forall a, fst (c s) = Normal a -> Q (snd (k a (snd (c s))))) ->
  Q (snd (bind c k s)).
Proof.
  unfold bind. destruct (c s) as [[a | e] s']; simpl; intros Ht Hn.
  - now apply Hn.
  - now apply (Ht e).
Qed.

Lemma keeps_ret {S A} (P : S -> Prop) (a : A) : keeps P (ret a).
Proof. intros s H. exact H. Qed.

Lemma keeps_throw {S A} (P : S -> Prop) (e : error) : keeps P (@throw S A e).
Proof. intros s H. exact H. Qed.

Lemma keeps_gets {S A} (P : S -> Prop) (f : S -> A) : keeps P (gets f).
Proof. intros s H. exact H. Qed.

Lemma keeps_modify {S} (P : S -> Prop) (f : S -> S) :
  (forall s, P s -> P (f s)) -> keeps P (modify f).
Proof. intros Hf s H. simpl. now apply Hf. Qed.

Lemma keeps_bind {S A B} (P : S -> Prop) (c : M S A) (k : A -> M S B) :
  keeps P c -> (forall a, keeps P (k a)) -> keeps P (bind c k).
Proof.
  intros Hc Hk s H. apply snd_bind; intros.
  - now apply Hc.
  - apply Hk. now apply Hc.
Qed.

Lemma keeps_when {S} (P : S -> Prop) (b : bool) (c : M S unit) :
  keeps P c -> keeps P (when b c).
Proof. intros Hc. destruct b; [exact Hc | apply keeps_ret]. Qed.

Lemma keeps_lift_option {S A} (P : S -> Prop) (e : error) (o : option A) :
  keeps P (@lift_option S A e o).
Proof. destruct o; [apply keeps_ret | apply keeps_throw]. Qed.

(* ===================================================================== *)
(** ** showSlide *)
(* ===================================================================== *)

Lemma count_pos s : slides s <> [] -> 0 < count s.
Proof. unfold count. destruct (slides s); [congruence | simpl; lia]. Qed.

(** On an empty slide list [showSlide] returns at line 98. *)
Lemma showSlide_nil i s : slides s = [] -> showSlide i s = (Normal tt, s).
Proof. intros H. unfold showSlide, bind, gets. rewrite H. reflexivity. Qed.

(** What follows line 99 writes to the render targets only. *)
Lemma keeps_render (P : state -> Prop) (f : View -> View) :
  (forall v s, P s -> P (set_view v s)) -> keeps P (render f).
Proof. intros H. apply keeps_modify. intros s Hs. now apply H. Qed.

Lemma keeps_prop (P : state -> Prop) v k : keeps P (prop v k).
Proof. apply keeps_lift_option. Qed.

(** A property of the state that does not depend on the render targets and
    holds once line 99 has run, holds when [showSlide] ends. *)
Lemma showSlide_post (P : state -> Prop) i s :
  slides s <> [] ->
  (forall v s, P s -> P (set_view v s)) ->
  P (set_current (Js.rem (i + count s) (count s)) s) ->
  P (snd (showSlide i s)).
Proof.
  intros Hne Hview Hcur. unfold showSlide.
  apply snd_bind; [discriminate |]. intros sl Hsl.
  cbn in Hsl. injection Hsl as <-. cbn [gets snd].
  revert Hcur. unfold count.
  destruct (slides s) as [| x xs] eqn:E; [congruence |].
  intros Hcur. cbn [is_nil].
  apply snd_bind; [discriminate |]. intros [] _. cbn [modify snd].
  revert Hcur. apply keeps_bind; [apply keeps_gets |]. intros cur.
  repeat (first
    [ apply keeps_render; exact Hview
    | apply keeps_prop
    | apply keeps_gets
    | apply keeps_bind; [ | intros ? ] ]).
Qed.

(** [showSlide] touches nothing but [current] and the render targets. *)
Lemma showSlide_frame i s :
  let s' := snd (showSlide i s) in
  slides s' = slides s /\ timer s' = timer s /\ itchUrl s' = itchUrl s /\
  intervals s' = intervals s /\ next_handle s' = next_handle s /\
  loading s' = loading s.
Proof.
  destruct (slides s) as [| x xs] eqn:E.
  - rewrite showSlide_nil by exact E. simpl. now rewrite E.
  - rewrite <- E.
    apply (showSlide_post
      (fun s' => slides s' = slides s /\ timer s' = timer s /\
                 itchUrl s' = itchUrl s /\ intervals s' = intervals s /\
                 next_handle s' = next_handle s /\ loading s' = loading s)).
    + congruence.
    + intros v s0 H. exact H.
    + simpl. repeat split.
Qed.

(** Line 99 in full: the index [showSlide] leaves in [current]. *)
Lemma showSlide_current i s :
  slides s <> [] ->
  current (snd (showSlide i s)) = Js.rem (i + count s) (count s).
Proof.
  intros Hne.
  apply (showSlide_post
    (fun s' => current s' = Js.rem (i + count s) (count s)));
    [exact Hne | intros v s0 H; exact H | reflexivity].
Qed.

(** Truncated remainder and the wrap of the specification agree from [-n]
    on. *)
Lemma rem_wrap i n :
  0 < n -> - n <= i ->
  Js.rem (i + n) n = Js.rem (Js.rem i n + n) n /\ 0 <= Js.rem (i + n) n < n.
Proof.
  intros Hn Hi. unfold Js.rem.
  assert (Hr : - n < Z.rem i n < n).
  { destruct (Z_le_gt_dec 0 i) as [Hp | Hm].
    - pose proof (Z.rem_bound_pos i n Hp Hn). lia.
    - pose proof (Z.rem_bound_abs i n ltac:(lia)). lia. }
  rewrite (Z.rem_mod_nonneg (i + n) n) by lia.
  rewrite (Z.rem_mod_nonneg (Z.rem i n + n) n) by lia.
  split.
  - pose proof (Z.quot_rem' i n) as Hq.
    replace (Z.rem i n + n) with (i + n + (- Z.quot i n) * n) by lia.
    now rewrite Z.mod_add by lia.
  - apply Z.mod_pos_bound. exact Hn.
Qed.

(** Below [-n] line 99 yields a negative number, unless [n] divides [i]. *)
Lemma rem_below i n :
  0 < n -> i < - n -> Js.rem (i + n) n <= 0.
Proof.
  intros Hn Hi. unfold Js.rem.
  pose proof (Z.rem_opp_l' (- (i + n)) n) as Ho.
  rewrite Z.opp_involutive in Ho.
  pose proof (Z.rem_bound_pos (- (i + n)) n ltac:(lia) Hn). lia.
Qed.

(** Below [-n] the index that line 99 leaves is not positive: it is outside
    the slide list unless it is [0]. *)
Lemma showSlide_below i s :
  slides s <> [] -> i < - count s -> current (snd (showSlide i s)) <= 0.
Proof.
  intros Hne Hi. rewrite showSlide_current by exact Hne.
  apply rem_below; [now apply count_pos | exact Hi].
Qed.

(** C5.  Called on an empty slide list, [showSlide] ends normally and
    leaves the whole state as it was: neither a variable of the script nor a
    property of a render target is written. *)
Theorem showSlide_empty_is_noop (i : Z) (s : state) :
  slides s = [] -> showSlide i s = (Normal tt, s).
Proof. apply showSlide_nil. Qed.

Lemma showSlide_empty_is_noop_witness :
  slides (initial Example.blank_view 1) = [] /\
  showSlide 7 (initial Example.blank_view 1)
  = (Normal tt, initial Example.blank_view 1).
Proof.
  split; [reflexivity |].
  apply (showSlide_empty_is_noop 7 (initial Example.blank_view 1)).
  reflexivity.
Defined.

(** From [-n] on, line 99 wraps as the specification says and yields an
    index of the slide list. *)
Lemma showSlide_wraps i s :
  slides s <> [] ->
  - count s <= i ->
  current (snd (showSlide i s)) = Js.rem (Js.rem i (count s) + count s) (count s)
  /\ 0 <= current (snd (showSlide i s)) < count s.
Proof.
  intros Hne Hi. rewrite showSlide_current by exact Hne.
  pose proof (count_pos s Hne) as Hn.
  destruct (rem_wrap i (count s) Hn Hi) as [H1 H2].
  now rewrite <- H1.
Qed.

(** C1, as the code has it.  For a non-empty slide list of length [n] and
    an integer [i] with [-n <= i], such that [i] and [i + n] are integers
    that a JavaScript number holds exactly (up to 2^53 in absolute value),
    [showSlide(i)] sets [current] to [(i + n) % n], which then equals
    [((i % n) + n) % n] and is an index in [[0, n)].  The callers pass [0],
    [current + 1] and [current - 1]. *)
Theorem showSlide_wraps_from_minus_length (i : Z) (s : state) :
  slides s <> [] ->
  - count s <= i ->
  exact i -> exact (i + count s) ->
  current (snd (showSlide i s)) = Js.rem (i + count s) (count s) /\
  current (snd (showSlide i s)) = Js.rem (Js.rem i (count s) + count s) (count s) /\
  0 <= current (snd (showSlide i s)) < count s.
Proof.
  intros Hne Hi _ _. split; [now apply showSlide_current |].
  now apply showSlide_wraps.
Qed.

Lemma showSlide_wraps_from_minus_length_witness :
  slides Example.three <> [] /\ - count Example.three <= -1 /\
  exact (-1) /\ exact (-1 + count Example.three) /\
  current (snd (showSlide (-1) Example.three)) = 2.
Proof.
  assert (H1 : slides Example.three <> []) by discriminate.
  assert (H2 : - count Example.three <= -1) by (vm_compute; discriminate).
  assert (H3 : exact (-1)) by (split; vm_compute; discriminate).
  assert (H4 : exact (-1 + count Example.three))
    by (split; vm_compute; discriminate).
  split; [exact H1 | split; [exact H2 | split; [exact H3 | split; [exact H4 |]]]].
  destruct (showSlide_wraps_from_minus_length (-1) Example.three H1 H2 H3 H4)
    as (_ & H & _).
  rewrite H. reflexivity.
Defined.

(** C1 as stated fails below [-n]: with three slides, [showSlide(-4)]
    leaves [current = -1], where [((i % n) + n) % n] is [2]. *)
Lemma showSlide_minus_four_of_three :
  current (snd (showSlide (-4) Example.three)) = -1 /\
  Js.rem (Js.rem (-4) 3 + 3) 3 = 2 /\
  ~ (0 <= current (snd (showSlide (-4) Example.three)) < 3).
Proof. vm_compute. repeat split; [intros [H _]; now apply H]. Qed.

(** [showSlide] keeps what depends neither on [current] nor on the render
    targets. *)
Lemma keeps_showSlide (P : state -> Prop) i :
  (forall v s, P s -> P (set_view v s)) ->
  (forall c s, P s -> P (set_current c s)) ->
  keeps P (showSlide i).
Proof.
  intros Hv Hc s Hs. destruct (slides s) as [| x xs] eqn:E.
  - now rewrite showSlide_nil.
  - apply showSlide_post; [congruence | exact Hv | now apply Hc].
Qed.

(** [showSlide] establishes the index invariant when its argument is not
    below [-n]. *)
Lemma showSlide_index_ok i s :
  (slides s <> [] -> - count s <= i) -> index_ok (snd (showSlide i s)).
Proof.
  intros Hi. destruct (showSlide_frame i s) as [Hsl _].
  unfold index_ok, count. rewrite Hsl. intros Hne.
  destruct (showSlide_wraps i s Hne (Hi Hne)) as [_ H].
  exact H.
Qed.

Lemma nextSlide_unfold s : nextSlide s = showSlide (current s + 1) s.
Proof. reflexivity. Qed.

Lemma prevSlide_unfold s : prevSlide s = showSlide (current s - 1) s.
Proof. reflexivity. Qed.

Lemma keeps_index_nextSlide : keeps index_ok nextSlide.
Proof.
  intros s H. rewrite nextSlide_unfold. apply showSlide_index_ok.
  intros Hne. specialize (H Hne). lia.
Qed.

Lemma keeps_index_prevSlide : keeps index_ok prevSlide.
Proof.
  intros s H. rewrite prevSlide_unfold. apply showSlide_index_ok.
  intros Hne. specialize (H Hne). lia.
Qed.

(* ===================================================================== *)
(** ** The timer *)
(* ===================================================================== *)

Lemma stopAuto_idle s : timer s = VNull -> stopAuto s = (Normal tt, s).
Proof. intros H. unfold stopAuto, bind, gets. now rewrite H. Qed.

Lemma stopAuto_running s h :
  timer s = VNum h -> h <> 0 ->
  stopAuto s =
  (Normal tt,
   set_timer VNull
     (set_intervals (filter (fun k => negb (k =? h)) (intervals s))
        (next_handle s) s)).
Proof.
  intros H Hh. unfold stopAuto, bind, gets. rewrite H. simpl.
  destruct (Z.eqb_spec h 0); [contradiction | reflexivity].
Qed.

(** [stopAuto] never throws, and leaves no timer scheduled. *)
Lemma stopAuto_spec s :
  timer_ok s ->
  fst (stopAuto s) = Normal tt /\
  timer (snd (stopAuto s)) = VNull /\ intervals (snd (stopAuto s)) = [] /\
  next_handle (snd (stopAuto s)) = next_handle s.
Proof.
  intros [Hn [[Ht Hi] | (h & Ht & Hi & Hh)]].
  - rewrite stopAuto_idle by exact Ht. simpl. auto.
  - rewrite (stopAuto_running s h) by (auto; lia). simpl.
    rewrite Hi. simpl. rewrite Z.eqb_refl. simpl. auto.
Qed.

(** A property that reads only fields the four setters leave alone is
    stable: each case holds by conversion. *)
Ltac stable_by_conversion :=
  split; [| split; [| split]]; intros; assumption.

Lemma keeps_stopAuto (P : state -> Prop) : stable P -> keeps P stopAuto.
Proof.
  intros (Ht & Hi & _ & _) s Hs. unfold stopAuto, bind, gets.
  destruct (truthy (timer s)); [| exact Hs].
  destruct (timer s); simpl; try (now apply Ht).
  apply Ht. now apply Hi.
Qed.

Lemma startAuto_unfold s :
  startAuto s =
  (Normal tt,
   let s1 := snd (stopAuto s) in
   set_timer (VNum (next_handle s1))
     (set_intervals (intervals s1 ++ [next_handle s1]) (next_handle s1 + 1) s1)).
Proof.
  unfold startAuto, bind at 1.
  assert (H : fst (stopAuto s) = Normal tt).
  { unfold stopAuto, bind, gets. destruct (truthy (timer s)); [| reflexivity].
    destruct (timer s); reflexivity. }
  destruct (stopAuto s) as [c s1]. simpl in H. subst c. reflexivity.
Qed.

Lemma keeps_startAuto (P : state -> Prop) : stable P -> keeps P startAuto.
Proof.
  intros HP s Hs. rewrite startAuto_unfold. simpl.
  pose proof (keeps_stopAuto P HP s Hs) as H1.
  destruct HP as (Ht & Hi & _ & _). apply Ht. now apply Hi.
Qed.

(** [startAuto] never throws and leaves exactly one timer scheduled, a
    fresh one, whose handle it stores in [timer]. *)
Lemma startAuto_spec s :
  timer_ok s ->
  fst (startAuto s) = Normal tt /\
  timer (snd (startAuto s)) = VNum (next_handle s) /\
  intervals (snd (startAuto s)) = [next_handle s] /\
  next_handle (snd (startAuto s)) = next_handle s + 1.
Proof.
  intros H. destruct (stopAuto_spec s H) as (_ & _ & Hi & Hn).
  rewrite startAuto_unfold. simpl. rewrite Hi, Hn. auto.
Qed.

Lemma timer_ok_startAuto : keeps timer_ok startAuto.
Proof.
  intros s H. destruct (startAuto_spec s H) as (_ & Ht & Hi & Hn).
  destruct H as [Hpos _]. split; [lia |].
  right. exists (next_handle s). repeat split; auto; lia.
Qed.

Lemma timer_ok_stopAuto : keeps timer_ok stopAuto.
Proof.
  intros s H. destruct (stopAuto_spec s H) as (_ & Ht & Hi & Hn).
  destruct H as [Hpos _]. split; [lia |]. left. auto.
Qed.

Lemma timer_ok_showSlide i : keeps timer_ok (showSlide i).
Proof. apply keeps_showSlide; intros ? s H; exact H. Qed.

Lemma keeps_loadSlides_begin (P : state -> Prop) u :
  stable P -> keeps P (loadSlides_begin u).
Proof.
  intros (_ & _ & Hu & Hl). unfold loadSlides_begin.
  apply keeps_bind; [apply keeps_modify; intros s H; now apply Hu |].
  intros _. apply keeps_bind; [apply keeps_gets |].
  intros a. apply keeps_modify. intros s H. now apply Hl.
Qed.

Lemma timer_ok_loadSlides_begin u : keeps timer_ok (loadSlides_begin u).
Proof.
  unfold loadSlides_begin.
  apply keeps_bind; [apply keeps_modify; intros s H; exact H |].
  intros _. apply keeps_bind; [apply keeps_gets |].
  intros a. apply keeps_modify. intros s H. exact H.
Qed.

Lemma timer_ok_loadSlides_resume l : keeps timer_ok (loadSlides_resume l).
Proof.
  unfold loadSlides_resume.
  apply keeps_bind; [apply keeps_modify; intros s H; exact H |].
  intros _. apply keeps_bind; [apply timer_ok_showSlide |].
  intros _. apply timer_ok_startAuto.
Qed.

Lemma timer_ok_nextSlide : keeps timer_ok nextSlide.
Proof.
  unfold nextSlide. apply keeps_bind; [apply keeps_gets |].
  intros c. apply timer_ok_showSlide.
Qed.

Lemma timer_ok_prevSlide : keeps timer_ok prevSlide.
Proof.
  unfold prevSlide. apply keeps_bind; [apply keeps_gets |].
  intros c. apply timer_ok_showSlide.
Qed.

(** The handler of [keydown] keeps a property that its parts keep. *)
Lemma keeps_on_keydown (P : state -> Prop) key answer :
  keeps P nextSlide -> keeps P prevSlide -> keeps P startAuto ->
  (forall u, keeps P (loadSlides_begin u)) ->
  keeps P (on_keydown key answer).
Proof.
  intros Hn Hp Hs Hl. unfold on_keydown.
  apply keeps_bind.
  { apply keeps_when. apply keeps_bind; [exact Hn | intros _; exact Hs]. }
  intros _. apply keeps_bind.
  { apply keeps_when. apply keeps_bind; [exact Hp | intros _; exact Hs]. }
  intros _. apply keeps_when.
  destruct (prompted_url answer); [apply Hl | apply keeps_ret].
Qed.

(** Every handler keeps a property that the parts of the handlers keep. *)
Lemma keeps_handle (P : state -> Prop) e :
  keeps P nextSlide -> keeps P prevSlide ->
  keeps P startAuto -> keeps P stopAuto ->
  (forall u, keeps P (loadSlides_begin u)) ->
  (forall l s, P s -> P (set_loading l s)) ->
  (forall l, keeps P (loadSlides_resume l)) ->
  keeps P (handle e).
Proof.
  intros Hn Hp Hs Ht Hl Hw Hr.
  destruct e as [key answer | | | | h | k w]; cbn [handle].
  - now apply keeps_on_keydown.
  - exact Ht.
  - exact Hs.
  - apply Hl.
  - apply keeps_bind; [apply keeps_gets |]. intros a.
    apply keeps_when. exact Hn.
  - apply keeps_bind; [apply keeps_gets |]. intros waiting.
    destruct (nth_error waiting k) as [url |]; [| apply keeps_ret].
    apply keeps_bind; [apply keeps_modify; intros s H; now apply Hw |].
    intros _. destruct (fst (fetchSlidesFromItch w url [])).
    + apply Hr.
    + apply keeps_throw.
Qed.

Lemma timer_ok_handle e : keeps timer_ok (handle e).
Proof.
  apply keeps_handle.
  - exact timer_ok_nextSlide.
  - exact timer_ok_prevSlide.
  - exact timer_ok_startAuto.
  - exact timer_ok_stopAuto.
  - exact timer_ok_loadSlides_begin.
  - intros l s H. exact H.
  - exact timer_ok_loadSlides_resume.
Qed.

Lemma timer_ok_initial v h : 0 < h -> timer_ok (initial v h).
Proof. intros H. split; [exact H | left; split; reflexivity]. Qed.

Lemma reachable_timer_ok s : reachable s -> timer_ok s.
Proof.
  induction 1 as [v h Hh | e s _ IH].
  - now apply timer_ok_initial.
  - now apply timer_ok_handle.
Qed.

(** C9.  In every state the slideshow can reach, at most one timer is
    scheduled; [startAuto] never throws and leaves exactly one timer
    scheduled, also when it follows another [startAuto]; [stopAuto] without
    an active timer changes nothing and does not throw; and a second
    [stopAuto] changes nothing after the first. *)
Theorem at_most_one_timer (s : state) :
  reachable s ->
  (List.length (intervals s) <= 1)%nat /\
  fst (startAuto s) = Normal tt /\
  intervals (snd (startAuto s)) = [next_handle s] /\
  fst (startAuto (snd (startAuto s))) = Normal tt /\
  intervals (snd (startAuto (snd (startAuto s)))) = [next_handle s + 1] /\
  (intervals s = [] -> stopAuto s = (Normal tt, s)) /\
  stopAuto (snd (stopAuto s)) = (Normal tt, snd (stopAuto s)).
Proof.
  intros Hr. pose proof (reachable_timer_ok s Hr) as Hok.
  pose proof (timer_ok_startAuto s Hok) as Hok1.
  destruct (startAuto_spec s Hok) as (H1 & _ & H2 & H3).
  destruct (startAuto_spec _ Hok1) as (H4 & _ & H5 & _).
  destruct (stopAuto_spec s Hok) as (_ & H6 & _).
  rewrite H3 in H5.
  repeat split; auto.
  - destruct Hok as [_ [[_ Hi] | (h & _ & Hi & _)]]; rewrite Hi; simpl; lia.
  - intros Hnone. apply stopAuto_idle.
    destruct Hok as [_ [[Ht _] | (h & _ & Hi & _)]]; [exact Ht | congruence].
  - now apply stopAuto_idle.
Qed.

Lemma at_most_one_timer_witness :
  reachable (step MouseLeave (initial Example.blank_view 1)) /\
  intervals (snd (startAuto (step MouseLeave (initial Example.blank_view 1))))
  = [2].
Proof.
  assert (Hr : reachable (step MouseLeave (initial Example.blank_view 1))).
  { apply reach_step. apply reach_initial. reflexivity. }
  split; [exact Hr |].
  destruct (at_most_one_timer _ Hr) as (_ & _ & H & _).
  rewrite H. reflexivity.
Defined.

(* ===================================================================== *)
(** ** The index invariant *)
(* ===================================================================== *)

Lemma stable_index_ok : stable index_ok.
Proof. stable_by_conversion. Qed.

Lemma stable_unrendered v : stable (unrendered v).
Proof. stable_by_conversion. Qed.

(** However the new slides look, [current] is [0] and valid once
    [loadSlides] has shown the first of them. *)
Lemma index_ok_loadSlides_resume l s : index_ok (snd (loadSlides_resume l s)).
Proof.
  unfold loadSlides_resume.
  apply snd_bind; [discriminate |]. intros [] _. cbn [modify snd].
  apply snd_bind; intros.
  - apply showSlide_index_ok. intros Hne.
    pose proof (count_pos _ Hne). lia.
  - apply (keeps_startAuto index_ok stable_index_ok).
    apply showSlide_index_ok. intros Hne.
    pose proof (count_pos _ Hne). lia.
Qed.

Lemma index_ok_handle e : keeps index_ok (handle e).
Proof.
  apply keeps_handle.
  - exact keeps_index_nextSlide.
  - exact keeps_index_prevSlide.
  - exact (keeps_startAuto index_ok stable_index_ok).
  - exact (keeps_stopAuto index_ok stable_index_ok).
  - intros u. exact (keeps_loadSlides_begin index_ok u stable_index_ok).
  - intros l s H. exact H.
  - intros l s _. apply index_ok_loadSlides_resume.
Qed.

Lemma index_ok_initial v h : index_ok (initial v h).
Proof. intros H. now contradiction H. Qed.

Lemma reachable_index_ok s : reachable s -> index_ok s.
Proof.
  induction 1 as [v h Hh | e s _ IH].
  - apply index_ok_initial.
  - now apply index_ok_handle.
Qed.

(** While there are no slides, [showSlide] does not render. *)
Lemma unrendered_showSlide v i : keeps (unrendered v) (showSlide i).
Proof. intros s [Hs Hv]. rewrite showSlide_nil by exact Hs. now split. Qed.

Lemma unrendered_nextSlide v : keeps (unrendered v) nextSlide.
Proof.
  intros s H. rewrite nextSlide_unfold. now apply unrendered_showSlide.
Qed.

Lemma unrendered_prevSlide v : keeps (unrendered v) prevSlide.
Proof.
  intros s H. rewrite prevSlide_unfold. now apply unrendered_showSlide.
Qed.

(** [startAuto] writes neither the slide list nor the render targets. *)
Lemma startAuto_frame s :
  slides (snd (startAuto s)) = slides s /\ view (snd (startAuto s)) = view s.
Proof.
  apply (keeps_startAuto
    (fun s' => slides s' = slides s /\ view s' = view s)).
  - stable_by_conversion.
  - split; reflexivity.
Qed.

(** When the slides that arrive leave the slide list empty, nothing is
    rendered. *)
Lemma loadSlides_resume_empty l s :
  slides (snd (loadSlides_resume l s)) = [] ->
  view (snd (loadSlides_resume l s)) = view s.
Proof.
  unfold loadSlides_resume.
  apply (snd_bind (fun s' => slides s' = [] -> view s' = view s));
    [discriminate |].
  intros [] _. cbn [modify snd].
  pose proof (showSlide_frame 0 (set_slides l s)) as [Hs _].
  destruct l as [| x xs].
  - intros _. unfold bind.
    rewrite (showSlide_nil 0 (set_slides [] s)) by reflexivity.
    destruct (startAuto_frame (set_slides [] s)) as [_ Hv]. exact Hv.
  - intros H. exfalso. revert H.
    apply (snd_bind (fun s' => slides s' = [] -> False)).
    + intros e _. rewrite Hs. discriminate.
    + intros [] _.
      destruct (startAuto_frame (snd (showSlide 0 (set_slides (x :: xs) s))))
        as [Hs' _].
      rewrite Hs', Hs. discriminate.
Qed.

(** While there are no slides, no handler renders; the slide list stays
    empty until slides arrive. *)
Lemma unrendered_handle v e :
  (forall k w, e <> Arrival k w) -> keeps (unrendered v) (handle e).
Proof.
  intros Hne. destruct e as [key answer | | | | h | k w]; cbn [handle].
  - apply keeps_on_keydown.
    + apply unrendered_nextSlide.
    + apply unrendered_prevSlide.
    + apply keeps_startAuto, stable_unrendered.
    + intros u. apply keeps_loadSlides_begin, stable_unrendered.
  - apply keeps_stopAuto, stable_unrendered.
  - apply keeps_startAuto, stable_unrendered.
  - apply keeps_loadSlides_begin, stable_unrendered.
  - apply keeps_bind; [apply keeps_gets |]. intros a.
    apply keeps_when, unrendered_nextSlide.
  - now destruct (Hne k w).
Qed.

Lemma no_render_without_slides e s :
  slides s = [] -> slides (step e s) = [] -> view (step e s) = view s.
Proof.
  intros Hs. unfold step.
  destruct e as [key answer | | | | h | k w];
    try (intros _; apply (unrendered_handle (view s));
         [discriminate | now split]).
  cbn [handle].
  apply (snd_bind (fun s' => slides s' = [] -> view s' = view s));
    [discriminate |].
  intros waiting _. cbn [gets snd].
  destruct (nth_error waiting k) as [url |]; [| reflexivity].
  apply (snd_bind (fun s' => slides s' = [] -> view s' = view s));
    [discriminate |].
  intros [] _. cbn [modify snd].
  destruct (fst (fetchSlidesFromItch w url [])) as [fetched | err].
  - intros H. rewrite (loadSlides_resume_empty _ _ H). reflexivity.
  - reflexivity.
Qed.

(** C3.  In every state the slideshow can reach, and after every event it
    can receive there (a key, the pointer entering or leaving, the page
    load, a tick of the timer, the arrival of fetched slides), [current] is
    the index of a slide whenever there are slides; and an event that finds
    and leaves the slide list empty writes nothing to the render targets. *)
Theorem current_index_always_valid (s : state) (e : event) :
  reachable s ->
  index_ok s /\ index_ok (step e s) /\
  (slides s = [] -> slides (step e s) = [] -> view (step e s) = view s).
Proof.
  intros Hr. pose proof (reachable_index_ok s Hr) as H.
  split; [exact H | split].
  - now apply index_ok_handle.
  - apply no_render_without_slides.
Qed.

Lemma current_index_always_valid_witness :
  reachable (step (Arrival 0 Example.offline)
               (step WindowLoad (initial Example.blank_view 1))) /\
  index_ok (step (KeyDown "ArrowLeft" None)
              (step (Arrival 0 Example.offline)
                 (step WindowLoad (initial Example.blank_view 1)))).
Proof.
  assert (Hr : reachable (step (Arrival 0 Example.offline)
                            (step WindowLoad (initial Example.blank_view 1)))).
  { apply reach_step, reach_step, reach_initial. reflexivity. }
  split; [exact Hr |].
  destruct (current_index_always_valid _ (KeyDown "ArrowLeft" None) Hr)
    as (_ & H & _).
  exact H.
Defined.

(* ===================================================================== *)
(** ** The slide source *)
(* ===================================================================== *)

Lemma nonempty_array_some v arr :
  nonempty_array v = Some arr -> v = VArr arr /\ arr <> [].
Proof.
  destruct v as [| | | | | [| x xs] |]; simpl; try discriminate.
  intros H. injection H as <-. split; [reflexivity | discriminate].
Qed.

Lemma nonempty_array_of arr : arr <> [] -> nonempty_array (VArr arr) = Some arr.
Proof. destruct arr; [congruence | reflexivity]. Qed.

(** The proxy tier issues its request and ends normally, whatever the
    request brings: with the array when the tier succeeds, without one when
    it fails. *)
Lemma proxy_tier_spec w url log :
  (exists arr, proxy_success w url arr /\
     proxy_tier w url log = (Normal (Some arr), log ++ [apiUrl url])) \/
  (proxy_failure w url /\
     proxy_tier w url log = (Normal None, log ++ [apiUrl url])).
Proof.
  unfold proxy_tier, try_catch, bind, do_fetch.
  destruct (fetch w (apiUrl url)) as [res |] eqn:Ef.
  - destruct (ok res) eqn:Eok.
    + destruct (json res) as [v |] eqn:Ej; simpl.
      * destruct (nonempty_array v) as [arr |] eqn:Ea.
        -- left. exists arr. split; [| reflexivity].
           destruct (nonempty_array_some v arr Ea) as [-> Hne].
           exists res. auto.
        -- right. split; [| reflexivity].
           now apply (proxy_no_array w url res v).
      * right. split; [| reflexivity]. now apply (proxy_no_json w url res).
    + right. split; [| reflexivity]. now apply (proxy_not_ok w url res).
  - right. split; [| reflexivity]. now apply proxy_rejects.
Qed.

(** Success and failure of the proxy tier exclude each other. *)
Lemma proxy_success_not_failure w url arr :
  proxy_success w url arr -> ~ proxy_failure w url.
Proof.
  intros (res & Hf & Hok & Hj & Hne) Hfail.
  destruct Hfail as [H | r H H' | r H H' H'' | r v H H' H'' H'''];
    rewrite Hf in H; try discriminate; injection H as <-.
  - congruence.
  - congruence.
  - rewrite Hj in H''. injection H'' as <-.
    rewrite nonempty_array_of in H''' by exact Hne. discriminate.
Qed.

(** The direct tier issues its request and ends normally with a non-empty
    list, whatever the request brings. *)
Lemma direct_tier_spec w url log :
  exists fetched,
    direct_tier w url log = (Normal fetched, log ++ [url]) /\ fetched <> [].
Proof.
  unfold direct_tier, try_catch, direct_fetch, bind, do_fetch.
  assert (Hsample : sampleSlides <> []) by discriminate.
  destruct (fetch w url) as [res |]; [| now exists sampleSlides].
  destruct (ok res); simpl; [| now exists sampleSlides].
  destruct (text res) as [markup |]; simpl; [| now exists sampleSlides].
  destruct (parsed w (parseFromString w markup) url
              (matched_nodes w (parseFromString w markup)))
    as [| x xs] eqn:E; simpl.
  - now exists sampleSlides.
  - exists (x :: xs). split; [reflexivity | discriminate].
Qed.

Lemma fetchSlides_after_failure w url log :
  proxy_failure w url ->
  fetchSlidesFromItch w url log = direct_tier w url (log ++ [apiUrl url]).
Proof.
  intros Hfail. unfold fetchSlidesFromItch, bind.
  destruct (proxy_tier_spec w url log) as [(arr & Hs & _) | [_ ->]].
  - now destruct (proxy_success_not_failure w url arr Hs).
  - reflexivity.
Qed.

Lemma fetchSlides_after_success w url log arr :
  proxy_success w url arr ->
  fetchSlidesFromItch w url log = (Normal arr, log ++ [apiUrl url]).
Proof.
  intros Hs. unfold fetchSlidesFromItch, bind.
  destruct (proxy_tier_spec w url log) as [(arr' & Hs' & ->) | [Hf _]].
  - destruct Hs as (r & Hr & _ & Hj & _), Hs' as (r' & Hr' & _ & Hj' & _).
    rewrite Hr in Hr'. injection Hr' as <-. rewrite Hj in Hj'.
    injection Hj' as <-. reflexivity.
  - now destruct (proxy_success_not_failure w url arr Hs).
Qed.


(** C6.  The array of the proxy is returned as it is, and no second request
    is made, when the proxy response is successful and decodes to a
    non-empty array.  In every other case (the request rejects, the status
    is not a success, the body does not decode, or it decodes to something
    that is not a non-empty array) the direct request for [url] follows and
    the result is that of the direct tier. *)
Theorem proxy_result_or_direct_fetch (w : Browser) (url : string) (log : requests) :
  (forall arr, proxy_success w url arr ->
     fetchSlidesFromItch w url log = (Normal arr, log ++ [apiUrl url])) /\
  (proxy_failure w url ->
     fetchSlidesFromItch w url log = direct_tier w url (log ++ [apiUrl url]) /\
     snd (fetchSlidesFromItch w url log) = log ++ [apiUrl url; url]) /\
  ((exists arr, proxy_success w url arr) \/ proxy_failure w url).
Proof.
  split; [| split].
  - intros arr. apply fetchSlides_after_success.
  - intros Hf. split; [now apply fetchSlides_after_failure |].
    rewrite fetchSlides_after_failure by exact Hf.
    destruct (direct_tier_spec w url (log ++ [apiUrl url])) as (l & -> & _).
    simpl. now rewrite <- app_assoc.
  - destruct (proxy_tier_spec w url log) as [(arr & Hs & _) | [Hf _]];
      [left; now exists arr | now right].
Qed.

Lemma proxy_result_or_direct_fetch_witness :
  proxy_success Example.proxy_browser "https://site.example/list"
    [Example.proxied_slide] /\
  proxy_failure Example.offline "https://site.example/list" /\
  fetchSlidesFromItch Example.proxy_browser "https://site.example/list" []
  = (Normal [Example.proxied_slide],
     ["/api/slides?url=https%3A%2F%2Fsite.example%2Flist"]) /\
  snd (fetchSlidesFromItch Example.offline "https://site.example/list" [])
  = ["/api/slides?url=https%3A%2F%2Fsite.example%2Flist";
     "https://site.example/list"].
Proof.
  assert (Hs : proxy_success Example.proxy_browser "https://site.example/list"
                 [Example.proxied_slide]).
  { eexists. split; [reflexivity |]. repeat split. discriminate. }
  assert (Hf : proxy_failure Example.offline "https://site.example/list").
  { apply proxy_rejects. reflexivity. }
  split; [exact Hs | split; [exact Hf |]].
  destruct (proxy_result_or_direct_fetch Example.proxy_browser
              "https://site.example/list" []) as (H1 & _ & _).
  destruct (proxy_result_or_direct_fetch Example.offline
              "https://site.example/list" []) as (_ & H2 & _).
  split.
  - rewrite (H1 _ Hs). reflexivity.
  - destruct (H2 Hf) as [_ ->]. reflexivity.
Defined.

Lemma first_matching_nil doc sels :
  (forall sel, In sel sels -> Dom.querySelectorAll doc sel = []) ->
  first_matching doc sels = [].
Proof.
  induction sels as [| s rest IH]; intros H; simpl; [reflexivity |].
  rewrite (H s) by (now left). simpl. apply IH.
  intros sel Hin. apply H. now right.
Qed.

(** C4.  When the proxy tier fails and the direct request returns markup in
    which no selector of the list matches an element and no link passes the
    filter of line 75, [fetchSlidesFromItch] returns the two fallback
    slides, titled [Sample Game 1] and [Sample Game 2], both with the
    default profile URL. *)
Theorem fallback_when_nothing_matches
    (w : Browser) (url : string) (log : requests) (res : Response)
    (markup : string) :
  proxy_failure w url ->
  fetch w url = Some res -> ok res = true -> text res = Some markup ->
  (forall sel, In sel selectors ->
     Dom.querySelectorAll (parseFromString w markup) sel = []) ->
  filter (game_link w (parseFromString w markup))
    (Dom.querySelectorAll (parseFromString w markup) (Dom.ByTag "a")) = [] ->
  fst (fetchSlidesFromItch w url log) = Normal sampleSlides /\
  map title_of sampleSlides = [VStr "Sample Game 1"; VStr "Sample Game 2"] /\
  map url_of sampleSlides = [VStr DEFAULT_ITCH_URL; VStr DEFAULT_ITCH_URL].
Proof.
  intros Hfail Hf Hok Ht Hsel Hlinks.
  split; [| split; reflexivity].
  rewrite fetchSlides_after_failure by exact Hfail.
  unfold direct_tier, try_catch, direct_fetch, bind, do_fetch.
  rewrite Hf, Hok. simpl. rewrite Ht. simpl.
  unfold matched_nodes. rewrite first_matching_nil by exact Hsel.
  simpl. rewrite Hlinks. reflexivity.
Qed.

Lemma fallback_when_nothing_matches_witness :
  fst (fetchSlidesFromItch Example.plain_browser "https://site.example/list" [])
  = Normal sampleSlides.
Proof.
  refine (proj1 (fallback_when_nothing_matches Example.plain_browser
            "https://site.example/list" []
            {| ok := true; json := None; text := Some Example.plain_markup |}
            Example.plain_markup _ _ _ _ _ _)).
  - apply proxy_rejects. reflexivity.
  - reflexivity.
  - reflexivity.
  - reflexivity.
  - intros sel [<- | [<- | [<- | [<- | [<- | []]]]]]; reflexivity.
  - reflexivity.
Defined.

(* ===================================================================== *)
(** ** The slides made from matched nodes *)
(* ===================================================================== *)


Lemma img_of_candidate w doc url n :
  img_of (candidate w doc url n) = VStr (node_img w doc url n).
Proof. reflexivity. Qed.

(** The filter of line 87 keeps a candidate exactly when its [url] is not
    the empty string. *)
Lemma has_url_candidate w doc url n :
  has_url (candidate w doc url n) = negb (Str.is_empty (node_href w doc url n)).
Proof. reflexivity. Qed.

Lemma is_empty_false s : s <> EmptyString -> Str.is_empty s = false.
Proof. destruct s; [congruence | reflexivity]. Qed.


Lemma filter_map_comm {A B} (f : A -> B) (p : B -> bool) l :
  filter p (map f l) = map f (filter (fun x => p (f x)) l).
Proof.
  induction l as [| x l IH]; simpl; [reflexivity |].
  destruct (p (f x)); simpl; now rewrite IH.
Qed.

(** The slides are the candidates of those of the first twelve nodes whose
    link target is not empty. *)
Lemma parsed_filter w doc url nodes :
  parsed w doc url nodes =
  map (candidate w doc url)
    (filter (fun n => negb (Str.is_empty (node_href w doc url n)))
       (firstn 12 nodes)).
Proof.
  exact (filter_map_comm (candidate w doc url) has_url (firstn 12 nodes)).
Qed.




(** The image of a slide is the [src] attribute resolved against the base
    URL of the parsed document: [img.src] is an absolute URL already, and
    resolving an absolute URL against the source URL changes nothing. *)
Lemma node_img_resolved_against_document_base
    w doc url node img attr resolved :
  Dom.querySelector node (Dom.ByTag "img") = Some img ->
  Dom.getAttribute (Dom.self img) "src" = Some attr ->
  URL_href w attr (Dom.baseURI doc) = Some resolved ->
  resolved <> EmptyString ->
  URL_href w resolved url = Some resolved ->
  node_img w doc url node = resolved.
Proof.
  intros Hq Ha Hr Hne Habs. unfold node_img. rewrite Hq. simpl.
  unfold src, Dom.reflect_url. rewrite Ha, Hr.
  rewrite is_empty_false by exact Hne.
  unfold absUrl. now rewrite Habs.
Qed.

(** C8, the code at the input of the claim.  The widget runs on a page at
    [https://widget.example/]; the page fetched from
    [https://site.example/list] holds a game cell with the image source
    [img/a.png].  The slide gets the image
    [https://widget.example/img/a.png], not
    [https://site.example/img/a.png]: line 85 reads [img.src], which the
    parsed document has resolved against its own base URL, so that the
    [absUrl(imgsrc, url)] of line 86 finds nothing left to resolve. *)
Theorem relative_image_resolved_against_widget_page :
  fst (fetchSlidesFromItch Example.image_browser "https://site.example/list" [])
  = Normal [slide (VStr "Untitled") (VStr "")
              (VStr "https://widget.example/img/a.png")
              (VStr "https://site.example/list")] /\
  absUrl Example.image_browser "img/a.png" "https://site.example/list"
  = "https://site.example/img/a.png".
Proof. split; reflexivity. Qed.

(** The claim's value does come out when the widget itself is served from
    the site it scrapes. *)
Lemma relative_image_same_site :
  fst (fetchSlidesFromItch Example.same_site_browser
         "https://site.example/list" [])
  = Normal [slide (VStr "Untitled") (VStr "")
              (VStr "https://site.example/img/a.png")
              (VStr "https://site.example/list")].
Proof. reflexivity. Qed.

(* ===================================================================== *)
(** ** The URL prompt *)
(* ===================================================================== *)

(** [loadSlides(u)] with a non-empty [u] makes [u] the source URL and
    starts to fetch it. *)
Lemma loadSlides_begin_spec u s :
  u <> EmptyString ->
  itchUrl (snd (loadSlides_begin u s)) = u /\
  loading (snd (loadSlides_begin u s)) = loading s ++ [u].
Proof.
  intros Hu. unfold loadSlides_begin, bind, modify, gets. simpl.
  rewrite is_empty_false by exact Hu. split; reflexivity.
Qed.

(** C7.  For an answer to the prompt that does not start with [http://] or
    [https://] (in any case of the letters), the F2 branch calls
    [loadSlides] with [https://] followed by the answer without a leading
    [//]: that string becomes the source URL and its fetch begins.  (The
    empty answer is the one for which [loadSlides] is not called.)  The
    answer [example.itch.io] gives [https://example.itch.io]. *)
Theorem prompt_adds_https (input : string) (s : state) :
  Str.test_http_scheme input = false ->
  let normalized := ("https://" ++ Str.strip_leading_slashes input)%string in
  (forall v, prompted_url (Some input) = Some v -> v = normalized) /\
  (input <> EmptyString ->
   prompted_url (Some input) = Some normalized /\
   itchUrl (step (KeyDown "F2" (Some input)) s) = normalized /\
   loading (step (KeyDown "F2" (Some input)) s) = loading s ++ [normalized]) /\
  prompted_url (Some "example.itch.io") = Some "https://example.itch.io".
Proof.
  intros Hscheme normalized.
  assert (Hp : input <> EmptyString ->
               prompted_url (Some input) = Some normalized).
  { intros Hne. unfold prompted_url, normalize.
    rewrite is_empty_false by exact Hne. now rewrite Hscheme. }
  split; [| split; [| reflexivity]].
  - intros v. destruct input as [| c r]; [discriminate |].
    rewrite Hp by discriminate. intros H. now injection H as <-.
  - intros Hne. split; [now apply Hp |].
    unfold step. cbn [handle]. unfold on_keydown.
    rewrite (Hp Hne).
    change (String.eqb "F2" "ArrowRight") with false.
    change (String.eqb "F2" "ArrowLeft") with false.
    change (String.eqb "F2" "F2") with true.
    cbn [when]. unfold bind at 1 2. cbn [ret].
    apply loadSlides_begin_spec. discriminate.
Qed.

Lemma prompt_adds_https_witness :
  Str.test_http_scheme "//example.itch.io" = false /\
  itchUrl (step (KeyDown "F2" (Some "//example.itch.io"))
             (initial Example.blank_view 1))
  = "https://example.itch.io".
Proof.
  assert (H : Str.test_http_scheme "//example.itch.io" = false) by reflexivity.
  split; [exact H |].
  destruct (prompt_adds_https "//example.itch.io"
              (initial Example.blank_view 1) H) as (_ & H2 & _).
  destruct H2 as (_ & H3 & _); [discriminate |].
  rewrite H3. reflexivity.
Defined.

(* ===================================================================== *)
(** ** Rendering *)
(* ===================================================================== *)

Lemma get_prop_field v k :
  nullish v = false -> get_prop v k = Some (field v k).
Proof. destruct v; simpl; try discriminate; reflexivity. Qed.

Lemma get_prop_nullish v k : nullish v = true -> get_prop v k = None.
Proof. destruct v; simpl; try discriminate; reflexivity. Qed.

(** [showSlide] on an entry whose properties can be read. *)
Lemma showSlide_normal i s :
  slides s <> [] -> nullish (selected i s) = false ->
  showSlide i s
  = (Normal tt,
     set_view (rendered (selected i s) (itchUrl s)) (set_current (wrapped i s) s)).
Proof.
  intros Hne Hv. unfold selected, wrapped, count in *.
  unfold showSlide, bind, gets, modify, render, prop.
  destruct (slides s) as [| x xs] eqn:E; [congruence |].
  cbn [is_nil current set_current slides].
  rewrite !(get_prop_field _ _ Hv). reflexivity.
Qed.

(** [showSlide] on [null] or [undefined]: line 114 throws, after the index
    and the animations have been written. *)
Lemma showSlide_throw i s :
  slides s <> [] -> nullish (selected i s) = true ->
  showSlide i s
  = (Throw TypeError,
     set_view (animate "" (view s)) (set_current (wrapped i s) s)).
Proof.
  intros Hne Hv. unfold selected, wrapped, count in *.
  unfold showSlide, bind, gets, modify, render, prop.
  destruct (slides s) as [| x xs] eqn:E; [congruence |].
  cbn [is_nil current set_current slides].
  rewrite (get_prop_nullish _ "title" Hv). reflexivity.
Qed.

(** X1.  Let [i] and [i + n] be integers that a JavaScript number holds
    exactly.  When the entry that [showSlide(i)] selects is neither [null]
    nor [undefined] and none of its properties [title], [desc], [img] and
    [url] is an object, the call ends normally and the render targets hold
    that entry's title, description, image and link, with the defaults of
    lines 114 to 118 for what is missing or falsy (the empty string,
    [BG.jpg], [Slide image], the source URL) and with the animations
    cleared; nothing of the previous content of the render targets
    remains. *)
Theorem showSlide_renders_selected (i : Z) (s : state) :
  slides s <> [] -> exact i -> exact (i + count s) ->
  nullish (selected i s) = false -> showable (selected i s) ->
  fst (showSlide i s) = Normal tt /\
  view (snd (showSlide i s)) = rendered (selected i s) (itchUrl s).
Proof.
  intros Hne _ _ Hv _. rewrite showSlide_normal by assumption.
  split; reflexivity.
Qed.

Lemma showSlide_renders_selected_witness :
  slides Example.three <> [] /\ exact 4 /\ exact (4 + count Example.three) /\
  nullish (selected 4 Example.three) = false /\
  showable (selected 4 Example.three) /\
  view (snd (showSlide 4 Example.three))
  = {| img_animation := ""; title_animation := ""; desc_animation := "";
       title_textContent := VStr "A"; desc_textContent := VStr "d";
       img_src := VStr "i.png"; img_alt := VStr "A";
       link_href := VStr "https://x" |}.
Proof.
  assert (H1 : slides Example.three <> []) by discriminate.
  assert (H2 : exact 4) by (split; vm_compute; discriminate).
  assert (H3 : exact (4 + count Example.three))
    by (split; vm_compute; discriminate).
  assert (H4 : nullish (selected 4 Example.three) = false) by reflexivity.
  assert (H5 : showable (selected 4 Example.three))
    by (repeat split; reflexivity).
  split; [exact H1 | split; [exact H2 | split; [exact H3 |
    split; [exact H4 | split; [exact H5 |]]]]].
  destruct (showSlide_renders_selected 4 Example.three H1 H2 H3 H4 H5)
    as [_ H].
  rewrite H. reflexivity.
Defined.

Lemma showSlide_throws_iff i s e :
  (fst (showSlide i s) = Throw e <->
   e = TypeError /\ slides s <> [] /\ nullish (selected i s) = true) /\
  (fst (showSlide i s) = Throw e ->
   current (snd (showSlide i s)) = wrapped i s /\
   view (snd (showSlide i s)) = animate "" (view s)).
Proof.
  destruct (slides s) as [| x xs] eqn:E.
  - rewrite showSlide_nil by exact E. simpl. split.
    + split; [discriminate | intros (_ & H & _); congruence].
    + discriminate.
  - assert (Hne : slides s <> []) by congruence.
    destruct (nullish (selected i s)) eqn:Hv.
    + rewrite showSlide_throw by assumption. simpl. split.
      * split; [| intros (-> & _); reflexivity].
        intros H. injection H as <-. repeat split. discriminate.
      * intros _. split; reflexivity.
    + rewrite showSlide_normal by assumption. simpl. split.
      * split; [discriminate | intros (_ & _ & H); discriminate].
      * discriminate.
Qed.

(** X2.  Let [i] and [i + n] be integers that a JavaScript number holds
    exactly, and let none of the properties [title], [desc], [img] and
    [url] of the selected entry be an object.  Then [showSlide(i)] throws
    exactly when there are slides and the selected entry is [null] or
    [undefined]; the exception is a [TypeError], raised at line 114: by
    then [current] and the animations are written, and the texts, the image
    and the link are as they were. *)
Theorem showSlide_throws_on_nullish (i : Z) (s : state) (e : error) :
  exact i -> exact (i + count s) -> showable (selected i s) ->
  (fst (showSlide i s) = Throw e <->
   e = TypeError /\ slides s <> [] /\ nullish (selected i s) = true) /\
  (fst (showSlide i s) = Throw e ->
   current (snd (showSlide i s)) = wrapped i s /\
   view (snd (showSlide i s)) = animate "" (view s)).
Proof. intros _ _ _. apply showSlide_throws_iff. Qed.

Lemma showSlide_throws_on_nullish_witness :
  exact 1 /\ exact (1 + count with_null) /\ showable (selected 1 with_null) /\
  fst (showSlide 1 with_null) = Throw TypeError.
Proof.
  assert (H1 : exact 1) by (split; vm_compute; discriminate).
  assert (H2 : exact (1 + count with_null)) by (split; vm_compute; discriminate).
  assert (H3 : showable (selected 1 with_null)) by (repeat split; reflexivity).
  split; [exact H1 | split; [exact H2 | split; [exact H3 |]]].
  destruct (showSlide_throws_on_nullish 1 with_null TypeError H1 H2 H3)
    as [[_ H] _].
  apply H. repeat split; discriminate || reflexivity.
Defined.

(** From [-n] on, the selected entry is one of the slides. *)
Lemma selected_in i s :
  slides s <> [] -> - count s <= i -> In (selected i s) (slides s).
Proof.
  intros Hne Hi. unfold selected, wrapped.
  pose proof (count_pos s Hne) as Hn.
  destruct (rem_wrap i (count s) Hn Hi) as [_ [H0 H1]].
  unfold index. destruct (Z.ltb_spec (Js.rem (i + count s) (count s)) 0); [lia |].
  apply nth_In. unfold count in *. lia.
Qed.

(** X3.  When no entry of the slide list is [null] or [undefined] and no
    entry has an object for its [title], [desc], [img] or [url],
    [showSlide(i)] does not throw for any [i] from [-n] on such that [i] and
    [i + n] are integers that a JavaScript number holds exactly; in
    particular [nextSlide] and [prevSlide] do not throw in a state that
    satisfies the index invariant. *)
Theorem showSlide_never_throws (i : Z) (s : state) :
  Forall (fun v => nullish v = false) (slides s) ->
  Forall showable (slides s) ->
  (- count s <= i -> exact i -> exact (i + count s) ->
   fst (showSlide i s) = Normal tt) /\
  (index_ok s -> fst (nextSlide s) = Normal tt /\ fst (prevSlide s) = Normal tt).
Proof.
  intros Hall _.
  assert (H : forall j, - count s <= j -> fst (showSlide j s) = Normal tt).
  { intros j Hj. destruct (slides s) as [| x xs] eqn:E.
    - now rewrite showSlide_nil.
    - assert (Hne : slides s <> []) by congruence.
      rewrite showSlide_normal; [reflexivity | exact Hne |].
      rewrite Forall_forall in Hall. apply Hall. rewrite <- E.
      now apply selected_in. }
  split; [intros Hi _ _; now apply H |]. intros Hok.
  rewrite nextSlide_unfold, prevSlide_unfold.
  destruct (slides s) as [| x xs] eqn:E.
  - rewrite !showSlide_nil by exact E. split; reflexivity.
  - assert (Hne : slides s <> []) by congruence.
    specialize (Hok Hne). split; apply H; lia.
Qed.

Lemma showSlide_never_throws_witness :
  Forall (fun v => nullish v = false) (slides Example.three) /\
  Forall showable (slides Example.three) /\
  fst (showSlide (-3) Example.three) = Normal tt.
Proof.
  assert (H : Forall (fun v => nullish v = false) (slides Example.three)).
  { repeat constructor. }
  assert (H' : Forall showable (slides Example.three)).
  { repeat constructor. }
  split; [exact H | split; [exact H' |]].
  destruct (showSlide_never_throws (-3) Example.three H H') as [H1 _].
  apply H1; [vm_compute; discriminate | |]; split; vm_compute; discriminate.
Defined.

(* ===================================================================== *)
(** ** Navigation *)
(* ===================================================================== *)

Lemma nextSlide_slides s : slides (snd (nextSlide s)) = slides s.
Proof. rewrite nextSlide_unfold. apply showSlide_frame. Qed.

Lemma prevSlide_slides s : slides (snd (prevSlide s)) = slides s.
Proof. rewrite prevSlide_unfold. apply showSlide_frame. Qed.

Lemma nextSlide_current s :
  slides s <> [] -> 0 <= current s ->
  current (snd (nextSlide s)) = (current s + 1) mod count s.
Proof.
  intros Hne Hc. rewrite nextSlide_unfold, showSlide_current by exact Hne.
  pose proof (count_pos s Hne). unfold Js.rem.
  rewrite Z.rem_mod_nonneg by lia.
  replace (current s + 1 + count s) with (current s + 1 + 1 * count s) by lia.
  apply Z.mod_add. lia.
Qed.

Lemma prevSlide_current s :
  slides s <> [] -> 0 <= current s ->
  current (snd (prevSlide s)) = (current s - 1) mod count s.
Proof.
  intros Hne Hc. rewrite prevSlide_unfold, showSlide_current by exact Hne.
  pose proof (count_pos s Hne). unfold Js.rem.
  rewrite Z.rem_mod_nonneg by lia.
  replace (current s - 1 + count s) with (current s - 1 + 1 * count s) by lia.
  apply Z.mod_add. lia.
Qed.

Lemma next_prev_current s :
  slides s <> [] -> index_ok s ->
  current (snd (nextSlide s))
  = (if current s =? count s - 1 then 0 else current s + 1) /\
  current (snd (prevSlide s))
  = (if current s =? 0 then count s - 1 else current s - 1).
Proof.
  intros Hne Hok. specialize (Hok Hne).
  rewrite nextSlide_current, prevSlide_current by (assumption || lia).
  split.
  - destruct (Z.eqb_spec (current s) (count s - 1)) as [-> | Hd].
    + replace (count s - 1 + 1) with (count s) by lia. apply Z.mod_same. lia.
    + apply Z.mod_small. lia.
  - destruct (Z.eqb_spec (current s) 0) as [-> | Hd].
    + replace (0 - 1) with (count s - 1 + (-1) * count s) by lia.
      rewrite Z.mod_add by lia. apply Z.mod_small. lia.
    + apply Z.mod_small. lia.
Qed.

(** X4.  In a state that satisfies the index invariant, [nextSlide] moves
    to the following slide and from the last one to the first;
    [prevSlide] moves to the preceding slide and from the first one to the
    last. *)
Theorem next_and_prev_wrap_around (s : state) :
  slides s <> [] -> index_ok s ->
  current (snd (nextSlide s))
  = (if current s =? count s - 1 then 0 else current s + 1) /\
  current (snd (prevSlide s))
  = (if current s =? 0 then count s - 1 else current s - 1).
Proof. apply next_prev_current. Qed.

Lemma next_and_prev_wrap_around_witness :
  slides Example.three <> [] /\ index_ok Example.three /\
  current (snd (prevSlide Example.three)) = 2.
Proof.
  assert (H1 : slides Example.three <> []) by discriminate.
  assert (H2 : index_ok Example.three).
  { intros _. vm_compute. split; discriminate || reflexivity. }
  split; [exact H1 | split; [exact H2 |]].
  destruct (next_and_prev_wrap_around Example.three H1 H2) as [_ H].
  rewrite H. reflexivity.
Defined.

Lemma count_nextSlide s : count (snd (nextSlide s)) = count s.
Proof. unfold count. now rewrite nextSlide_slides. Qed.

Lemma count_prevSlide s : count (snd (prevSlide s)) = count s.
Proof. unfold count. now rewrite prevSlide_slides. Qed.

(** X5.  [prevSlide] undoes [nextSlide] and [nextSlide] undoes
    [prevSlide]: after the two calls, in either order, [current] is what it
    was. *)
Theorem next_then_prev_returns (s : state) :
  slides s <> [] -> index_ok s ->
  current (snd (prevSlide (snd (nextSlide s)))) = current s /\
  current (snd (nextSlide (snd (prevSlide s)))) = current s.
Proof.
  intros Hne Hok. pose proof (Hok Hne) as Hc.
  destruct (next_prev_current s Hne Hok) as [Hn Hp].
  assert (Hne1 : slides (snd (nextSlide s)) <> [])
    by now rewrite nextSlide_slides.
  assert (Hne2 : slides (snd (prevSlide s)) <> [])
    by now rewrite prevSlide_slides.
  destruct (next_prev_current _ Hne1 (keeps_index_nextSlide s Hok)) as [_ H1].
  destruct (next_prev_current _ Hne2 (keeps_index_prevSlide s Hok)) as [H2 _].
  rewrite H1, H2, count_nextSlide, count_prevSlide, Hn, Hp.
  split.
  - destruct (Z.eqb_spec (current s) (count s - 1));
      [rewrite Z.eqb_refl; lia |].
    destruct (Z.eqb_spec (current s + 1) 0); lia.
  - destruct (Z.eqb_spec (current s) 0);
      [rewrite Z.eqb_refl; lia |].
    destruct (Z.eqb_spec (current s - 1) (count s - 1)); lia.
Qed.

Lemma next_then_prev_returns_witness :
  slides Example.three <> [] /\ index_ok Example.three /\
  current (snd (nextSlide (snd (prevSlide Example.three)))) = 0.
Proof.
  assert (H1 : slides Example.three <> []) by discriminate.
  assert (H2 : index_ok Example.three).
  { intros _. vm_compute. split; discriminate || reflexivity. }
  split; [exact H1 | split; [exact H2 |]].
  destruct (next_then_prev_returns Example.three H1 H2) as [_ H].
  rewrite H. reflexivity.
Defined.

Lemma advance_spec k s :
  slides s <> [] -> index_ok s ->
  slides (advance k s) = slides s /\
  current (advance k s) = (current s + Z.of_nat k) mod count s.
Proof.
  intros Hne Hok. pose proof (Hok Hne) as Hc. pose proof (count_pos s Hne) as Hn.
  induction k as [| k [IHs IHc]].
  - simpl. split; [reflexivity |]. rewrite Z.add_0_r.
    symmetry. apply Z.mod_small. exact Hc.
  - change (advance (S k) s) with (snd (nextSlide (advance k s))).
    set (s' := advance k s) in *.
    split; [now rewrite nextSlide_slides |].
    assert (Hcount : count s' = count s) by (unfold count; now rewrite IHs).
    rewrite nextSlide_current.
    + rewrite Hcount, IHc, Z.add_mod_idemp_l by lia. f_equal. lia.
    + now rewrite IHs.
    + rewrite IHc. apply Z.mod_pos_bound. exact Hn.
Qed.

(** X6.  [k] calls of [nextSlide] move [current] forward by [k] modulo the
    number of slides and leave the slide list as it is; as many calls as
    there are slides bring [current] back to where it was. *)
Theorem advance_cycles (k : nat) (s : state) :
  slides s <> [] -> index_ok s ->
  slides (advance k s) = slides s /\
  current (advance k s) = (current s + Z.of_nat k) mod count s /\
  current (advance (List.length (slides s)) s) = current s.
Proof.
  intros Hne Hok. destruct (advance_spec k s Hne Hok) as [H1 H2].
  split; [exact H1 | split; [exact H2 |]].
  destruct (advance_spec (List.length (slides s)) s Hne Hok) as [_ H3].
  rewrite H3. fold (count s).
  replace (current s + count s) with (current s + 1 * count s) by lia.
  rewrite Z.mod_add by (pose proof (count_pos s Hne); lia).
  apply Z.mod_small. now apply Hok.
Qed.

Lemma advance_cycles_witness :
  slides Example.three <> [] /\ index_ok Example.three /\
  current (advance 4 Example.three) = 1.
Proof.
  assert (H1 : slides Example.three <> []) by discriminate.
  assert (H2 : index_ok Example.three).
  { intros _. vm_compute. split; discriminate || reflexivity. }
  split; [exact H1 | split; [exact H2 |]].
  destruct (advance_cycles 4 Example.three H1 H2) as (_ & H & _).
  rewrite H. reflexivity.
Defined.

Lemma wrapped_mod i s :
  slides s <> [] -> - count s <= i -> wrapped i s = i mod count s.
Proof.
  intros Hne Hi. pose proof (count_pos s Hne). unfold wrapped, Js.rem.
  rewrite Z.rem_mod_nonneg by lia.
  replace (i + count s) with (i + 1 * count s) by lia.
  apply Z.mod_add. lia.
Qed.

Lemma showSlide_by_wrapped i j s :
  wrapped i s = wrapped j s -> showSlide i s = showSlide j s.
Proof.
  intros H. destruct (slides s) as [| x xs] eqn:E.
  - now rewrite !showSlide_nil.
  - assert (Hne : slides s <> []) by congruence.
    assert (Hsel : selected i s = selected j s) by (unfold selected; now rewrite H).
    destruct (nullish (selected i s)) eqn:Hv.
    + rewrite (showSlide_throw i), (showSlide_throw j); try assumption.
      * now rewrite H.
      * now rewrite <- Hsel.
    + rewrite (showSlide_normal i), (showSlide_normal j); try assumption.
      * now rewrite H, Hsel.
      * now rewrite <- Hsel.
Qed.

(** X7.  From [-n] on, and as long as the arguments and their sums with
    [n] are integers that a JavaScript number holds exactly, [showSlide]
    depends on its argument only modulo the number of slides: two arguments
    that are congruent give the same result and the same state.  In
    particular [showSlide(i + n)] is [showSlide(i)]. *)
Theorem showSlide_congruent (i j : Z) (s : state) :
  - count s <= i -> - count s <= j ->
  exact i -> exact (i + count s) -> exact j -> exact (j + count s) ->
  i mod count s = j mod count s ->
  showSlide i s = showSlide j s.
Proof.
  intros Hi Hj _ _ _ _ Hmod. destruct (slides s) as [| x xs] eqn:E.
  - now rewrite !showSlide_nil.
  - assert (Hne : slides s <> []) by congruence.
    apply showSlide_by_wrapped. now rewrite !wrapped_mod.
Qed.

Lemma showSlide_congruent_witness :
  showSlide (-2) Example.three = showSlide 4 Example.three.
Proof.
  apply (showSlide_congruent (-2) 4 Example.three);
    try (split; vm_compute; discriminate);
    vm_compute; discriminate || reflexivity.
Defined.

(** X8.  Showing the same slide again changes nothing: the state after two
    calls [showSlide(i)] is the state after one. *)
Theorem showSlide_idempotent (i : Z) (s : state) :
  snd (showSlide i (snd (showSlide i s))) = snd (showSlide i s).
Proof.
  destruct (slides s) as [| x xs] eqn:E.
  - rewrite (showSlide_nil i s E). cbn [snd]. now rewrite (showSlide_nil i s E).
  - assert (Hne : slides s <> []) by congruence.
    destruct (nullish (selected i s)) eqn:Hv.
    + rewrite (showSlide_throw i s) by assumption. cbn [snd].
      rewrite showSlide_throw; [reflexivity | exact Hne | exact Hv].
    + rewrite (showSlide_normal i s) by assumption. cbn [snd].
      rewrite showSlide_normal; [reflexivity | exact Hne | exact Hv].
Qed.

(* ===================================================================== *)
(** ** The timer and the handlers *)
(* ===================================================================== *)

(** A tick of a timer that is not scheduled does nothing. *)
Lemma tick_unscheduled h s :
  existsb (Z.eqb h) (intervals s) = false -> handle (Tick h) s = (Normal tt, s).
Proof.
  intros H. cbn [handle]. unfold bind, gets. rewrite H. reflexivity.
Qed.

Lemma stopAuto_frame s :
  slides (snd (stopAuto s)) = slides s /\
  current (snd (stopAuto s)) = current s /\
  view (snd (stopAuto s)) = view s /\
  itchUrl (snd (stopAuto s)) = itchUrl s /\
  loading (snd (stopAuto s)) = loading s.
Proof.
  unfold stopAuto, bind, gets. destruct (truthy (timer s)); [| now simpl].
  destruct (timer s); simpl; auto.
Qed.

Lemma startAuto_frame_all s :
  slides (snd (startAuto s)) = slides s /\
  current (snd (startAuto s)) = current s /\
  view (snd (startAuto s)) = view s /\
  itchUrl (snd (startAuto s)) = itchUrl s /\
  loading (snd (startAuto s)) = loading s.
Proof. rewrite startAuto_unfold. simpl. apply stopAuto_frame. Qed.

(** X9.  Pause on hover.  When the pointer enters the display, no timer is
    left scheduled and the slides, the index and the render targets stay as
    they are; until the pointer leaves, no tick moves the slideshow; when
    it leaves, exactly one timer, a new one, is scheduled. *)
Theorem hover_pauses (s : state) (h : Z) :
  reachable s ->
  let s1 := step MouseEnter s in
  intervals s1 = [] /\ timer s1 = VNull /\
  slides s1 = slides s /\ current s1 = current s /\ view s1 = view s /\
  step (Tick h) s1 = s1 /\
  intervals (step MouseLeave s1) = [next_handle s].
Proof.
  intros Hr s1. subst s1. pose proof (reachable_timer_ok s Hr) as Hok.
  change (step MouseEnter s) with (snd (stopAuto s)).
  change (step MouseLeave (snd (stopAuto s)))
    with (snd (startAuto (snd (stopAuto s)))).
  destruct (stopAuto_spec s Hok) as (_ & Ht & Hi & Hn).
  destruct (stopAuto_frame s) as (Hs & Hc & Hv & _).
  destruct (startAuto_spec _ (timer_ok_stopAuto s Hok)) as (_ & _ & Hi' & _).
  repeat split; try assumption.
  - unfold step. rewrite tick_unscheduled; [reflexivity |]. now rewrite Hi.
  - now rewrite Hi', Hn.
Qed.

Lemma hover_pauses_witness :
  reachable (step MouseLeave (initial Example.blank_view 1)) /\
  step (Tick 1) (step MouseEnter (step MouseLeave (initial Example.blank_view 1)))
  = step MouseEnter (step MouseLeave (initial Example.blank_view 1)).
Proof.
  assert (Hr : reachable (step MouseLeave (initial Example.blank_view 1))).
  { apply reach_step. apply reach_initial. reflexivity. }
  split; [exact Hr |].
  destruct (hover_pauses _ 1 Hr) as (_ & _ & _ & _ & _ & H & _).
  exact H.
Defined.

(** X10.  Only the timer whose handle the variable [timer] holds can move
    the slideshow: a tick with any other handle does nothing.  So a timer
    that [startAuto] has replaced never fires again. *)
Theorem only_current_timer_ticks (s : state) (h : Z) :
  reachable s ->
  (timer s <> VNum h -> step (Tick h) s = s) /\
  (In h (intervals s) ->
   step (Tick h) (snd (startAuto s)) = snd (startAuto s)).
Proof.
  intros Hr. pose proof (reachable_timer_ok s Hr) as Hok. split.
  - intros Hne. unfold step. rewrite tick_unscheduled; [reflexivity |].
    destruct Hok as [_ [[_ Hi] | (h0 & Ht & Hi & _)]]; rewrite Hi; simpl;
      [reflexivity |].
    destruct (Z.eqb_spec h h0) as [-> | _]; [congruence | reflexivity].
  - intros Hin. destruct (startAuto_spec s Hok) as (_ & _ & Hi' & _).
    unfold step. rewrite tick_unscheduled; [reflexivity |].
    rewrite Hi'. simpl.
    destruct Hok as [_ [[_ Hi] | (h0 & _ & Hi & Hb)]]; rewrite Hi in Hin;
      simpl in Hin; [contradiction |].
    destruct Hin as [<- | []].
    destruct (Z.eqb_spec h0 (next_handle s)); [lia | reflexivity].
Qed.

Lemma only_current_timer_ticks_witness :
  reachable (step MouseLeave (initial Example.blank_view 1)) /\
  step (Tick 5) (step MouseLeave (initial Example.blank_view 1))
  = step MouseLeave (initial Example.blank_view 1).
Proof.
  assert (Hr : reachable (step MouseLeave (initial Example.blank_view 1))).
  { apply reach_step. apply reach_initial. reflexivity. }
  split; [exact Hr |].
  destruct (only_current_timer_ticks _ 5 Hr) as [H _].
  apply H. discriminate.
Defined.

Lemma on_keydown_right a s :
  on_keydown "ArrowRight" a s = (nextSlide ;; startAuto) s.
Proof.
  unfold on_keydown.
  change (String.eqb "ArrowRight" "ArrowRight") with true.
  change (String.eqb "ArrowRight" "ArrowLeft") with false.
  change (String.eqb "ArrowRight" "F2") with false.
  cbn [when]. unfold bind, ret.
  destruct (nextSlide s) as [[[] | e] s1]; [| reflexivity].
  destruct (startAuto s1) as [[[] | e] s2]; reflexivity.
Qed.

Lemma on_keydown_left a s :
  on_keydown "ArrowLeft" a s = (prevSlide ;; startAuto) s.
Proof.
  unfold on_keydown.
  change (String.eqb "ArrowLeft" "ArrowRight") with false.
  change (String.eqb "ArrowLeft" "ArrowLeft") with true.
  change (String.eqb "ArrowLeft" "F2") with false.
  cbn [when]. unfold bind, ret.
  destruct (prevSlide s) as [[[] | e] s1]; [| reflexivity].
  destruct (startAuto s1) as [[[] | e] s2]; reflexivity.
Qed.

(** A move followed by [startAuto]: the timer is replaced when the move
    ends normally, and left alone when the move throws. *)
Lemma move_then_startAuto (move : M state unit) s :
  timer_ok s ->
  (forall s0, timer (snd (move s0)) = timer s0 /\
              intervals (snd (move s0)) = intervals s0 /\
              next_handle (snd (move s0)) = next_handle s0) ->
  let s' := snd ((move ;; startAuto) s) in
  current s' = current (snd (move s)) /\
  (fst (move s) = Normal tt ->
   timer s' = VNum (next_handle s) /\ intervals s' = [next_handle s]) /\
  (forall e, fst (move s) = Throw e ->
   timer s' = timer s /\ intervals s' = intervals s).
Proof.
  intros Hok Hframe. destruct (Hframe s) as (Ht & Hi & Hn).
  assert (Hok1 : timer_ok (snd (move s))).
  { unfold timer_ok. rewrite Ht, Hi, Hn. exact Hok. }
  destruct (startAuto_spec _ Hok1) as (_ & Ht' & Hi' & _).
  destruct (startAuto_frame_all (snd (move s))) as (_ & Hc & _).
  unfold bind. destruct (move s) as [[[] | e] s1]; cbn [fst snd] in *.
  - split; [exact Hc | split; [| discriminate]].
    intros _. now rewrite Ht', Hi', Hn.
  - split; [reflexivity | split; [discriminate |]].
    intros e' _. now split.
Qed.

Lemma nextSlide_timer s0 :
  timer (snd (nextSlide s0)) = timer s0 /\
  intervals (snd (nextSlide s0)) = intervals s0 /\
  next_handle (snd (nextSlide s0)) = next_handle s0.
Proof.
  rewrite nextSlide_unfold.
  destruct (showSlide_frame (current s0 + 1) s0) as (_ & H1 & _ & H2 & H3 & _).
  auto.
Qed.

Lemma prevSlide_timer s0 :
  timer (snd (prevSlide s0)) = timer s0 /\
  intervals (snd (prevSlide s0)) = intervals s0 /\
  next_handle (snd (prevSlide s0)) = next_handle s0.
Proof.
  rewrite prevSlide_unfold.
  destruct (showSlide_frame (current s0 - 1) s0) as (_ & H1 & _ & H2 & H3 & _).
  auto.
Qed.

(** X11.  The arrow keys.  The right arrow shows the next slide and the
    left arrow the previous one; when the slide is shown, the timer is
    replaced by a new one, so that the interval starts again.  When showing
    the slide throws (the entry is [null]), line 141 or 142 is left before
    [startAuto] and the timer stays as it was. *)
Theorem arrow_keys_restart_timer (s : state) (a : option string) :
  reachable s ->
  let r := step (KeyDown "ArrowRight" a) s in
  let l := step (KeyDown "ArrowLeft" a) s in
  current r = current (snd (nextSlide s)) /\
  current l = current (snd (prevSlide s)) /\
  (fst (nextSlide s) = Normal tt ->
   timer r = VNum (next_handle s) /\ intervals r = [next_handle s]) /\
  (fst (prevSlide s) = Normal tt ->
   timer l = VNum (next_handle s) /\ intervals l = [next_handle s]) /\
  (forall e, fst (nextSlide s) = Throw e ->
   timer r = timer s /\ intervals r = intervals s) /\
  (forall e, fst (prevSlide s) = Throw e ->
   timer l = timer s /\ intervals l = intervals s).
Proof.
  intros Hr r l. pose proof (reachable_timer_ok s Hr) as Hok.
  unfold r, l, step. cbn [handle].
  rewrite on_keydown_right, on_keydown_left.
  destruct (move_then_startAuto nextSlide s Hok nextSlide_timer) as (A1 & A2 & A3).
  destruct (move_then_startAuto prevSlide s Hok prevSlide_timer) as (B1 & B2 & B3).
  repeat split; try (apply A1 || apply B1);
    try (now apply A2); try (now apply B2).
  - now apply (A3 e).
  - now apply (A3 e).
  - now apply (B3 e).
  - now apply (B3 e).
Qed.

Lemma arrow_keys_restart_timer_witness :
  reachable (step (Arrival 0 Example.offline)
               (step WindowLoad (initial Example.blank_view 1))) /\
  intervals (step (KeyDown "ArrowRight" None)
               (step (Arrival 0 Example.offline)
                  (step WindowLoad (initial Example.blank_view 1)))) = [2].
Proof.
  assert (Hr : reachable (step (Arrival 0 Example.offline)
                            (step WindowLoad (initial Example.blank_view 1)))).
  { apply reach_step, reach_step, reach_initial. reflexivity. }
  split; [exact Hr |].
  destruct (arrow_keys_restart_timer _ None Hr) as (_ & _ & H & _).
  destruct H as [_ H]; [reflexivity |].
  rewrite H. reflexivity.
Defined.

(** X12.  A key other than the two arrows and F2 changes nothing, and
    neither does F2 when the prompt is cancelled or left empty. *)
Theorem other_keys_change_nothing (key : string) (a : option string) (s : state) :
  key <> "ArrowRight" -> key <> "ArrowLeft" ->
  (key = "F2" -> a = None \/ a = Some EmptyString) ->
  handle (KeyDown key a) s = (Normal tt, s).
Proof.
  intros H1 H2 H3. cbn [handle]. unfold on_keydown.
  apply String.eqb_neq in H1, H2. rewrite H1, H2. cbn [when].
  destruct (String.eqb_spec key "F2") as [E | _]; [| reflexivity].
  destruct (H3 E) as [-> | ->]; reflexivity.
Qed.

Lemma other_keys_change_nothing_witness :
  handle (KeyDown "F2" (Some EmptyString)) Example.three
  = (Normal tt, Example.three).
Proof.
  apply (other_keys_change_nothing "F2" (Some EmptyString) Example.three).
  - discriminate.
  - discriminate.
  - intros _. right. reflexivity.
Defined.

(* ===================================================================== *)
(** ** Normalizing the prompted URL *)
(* ===================================================================== *)

Lemma starts_with_empty s : Str.starts_with EmptyString s = true.
Proof. destruct s; reflexivity. Qed.

Lemma https_has_scheme r :
  Str.test_http_scheme ("https://" ++ r) = true.
Proof.
  unfold Str.test_http_scheme. cbn. apply starts_with_empty.
Qed.

(** X13.  The normalization of lines 148 and 149 always yields a string
    that starts with [http://] or [https://]; it leaves a string that has
    such a prefix as it is, and so normalizing twice is normalizing once. *)
Theorem normalize_idempotent (input : string) :
  Str.test_http_scheme (normalize input) = true /\
  (Str.test_http_scheme input = true -> normalize input = input) /\
  normalize (normalize input) = normalize input.
Proof.
  assert (H1 : Str.test_http_scheme (normalize input) = true).
  { unfold normalize. destruct (Str.test_http_scheme input) eqn:E;
      [exact E | apply https_has_scheme]. }
  assert (H2 : forall x, Str.test_http_scheme x = true -> normalize x = x).
  { intros x Hx. unfold normalize. now rewrite Hx. }
  split; [exact H1 | split; [apply H2 | now apply H2]].
Qed.

(* ===================================================================== *)
(** ** The arrival of the slides *)
(* ===================================================================== *)

Lemma wrapped_zero s : slides s <> [] -> wrapped 0 s = 0.
Proof.
  intros Hne. pose proof (count_pos s Hne). unfold wrapped, Js.rem.
  apply Z.rem_same. lia.
Qed.

Lemma selected_zero s x xs : slides s = x :: xs -> selected 0 s = x.
Proof.
  intros E. unfold selected. rewrite wrapped_zero by congruence.
  rewrite E. reflexivity.
Qed.

(** The fetch of the slides ends normally with a non-empty list. *)
Lemma fetchSlides_nonempty w url log :
  exists fetched,
    fst (fetchSlidesFromItch w url log) = Normal fetched /\ fetched <> [].
Proof.
  destruct (proxy_tier_spec w url log) as [(arr & Hs & _) | [Hf _]].
  - exists arr. rewrite (fetchSlides_after_success w url log arr Hs).
    split; [reflexivity |]. now destruct Hs as (_ & _ & _ & _ & Hne).
  - rewrite fetchSlides_after_failure by exact Hf.
    destruct (direct_tier_spec w url (log ++ [apiUrl url])) as (l & -> & Hne).
    now exists l.
Qed.

(** The handler of an arrival, once the fetch has ended. *)
Lemma handle_arrival k w s url fetched :
  nth_error (loading s) k = Some url ->
  fst (fetchSlidesFromItch w url []) = Normal fetched ->
  handle (Arrival k w) s
  = loadSlides_resume fetched (set_loading (remove_nth k (loading s)) s).
Proof.
  intros Hk Hf. cbn [handle]. unfold bind at 1, gets at 1.
  rewrite Hk. unfold bind at 1, modify at 1. now rewrite Hf.
Qed.

Lemma loadSlides_resume_eq x xs s :
  nullish x = false ->
  loadSlides_resume (x :: xs) s
  = startAuto (set_view (rendered x (itchUrl s))
                 (set_current 0 (set_slides (x :: xs) s))).
Proof.
  intros Hx. unfold loadSlides_resume, bind at 1, modify at 1.
  set (s1 := set_slides (x :: xs) s).
  assert (Hne : slides s1 <> []) by discriminate.
  assert (Hsel : selected 0 s1 = x) by now apply (selected_zero s1 x xs).
  unfold bind. rewrite showSlide_normal by (assumption || now rewrite Hsel).
  rewrite Hsel, wrapped_zero by exact Hne. reflexivity.
Qed.

Lemma loadSlides_resume_normal x xs s :
  nullish x = false -> timer_ok s ->
  let r := loadSlides_resume (x :: xs) s in
  fst r = Normal tt /\ slides (snd r) = x :: xs /\ current (snd r) = 0 /\
  view (snd r) = rendered x (itchUrl s) /\
  timer (snd r) = VNum (next_handle s) /\ intervals (snd r) = [next_handle s] /\
  itchUrl (snd r) = itchUrl s /\ loading (snd r) = loading s.
Proof.
  intros Hx Hok r. subst r. rewrite loadSlides_resume_eq by exact Hx.
  set (s2 := set_view (rendered x (itchUrl s))
               (set_current 0 (set_slides (x :: xs) s))).
  assert (Hok2 : timer_ok s2) by exact Hok.
  destruct (startAuto_spec s2 Hok2) as (H1 & H2 & H3 & _).
  destruct (startAuto_frame_all s2) as (F1 & F2 & F3 & F4 & F5).
  repeat split; assumption.
Qed.

Lemma loadSlides_resume_throw x xs s :
  nullish x = true ->
  loadSlides_resume (x :: xs) s
  = (Throw TypeError,
     set_view (animate "" (view s)) (set_current 0 (set_slides (x :: xs) s))).
Proof.
  intros Hx. unfold loadSlides_resume, bind at 1, modify at 1.
  set (s1 := set_slides (x :: xs) s).
  assert (Hne : slides s1 <> []) by discriminate.
  assert (Hsel : selected 0 s1 = x) by now apply (selected_zero s1 x xs).
  unfold bind. rewrite showSlide_throw by (assumption || now rewrite Hsel).
  now rewrite wrapped_zero by exact Hne.
Qed.

(** X14.  When the slides of a waiting [loadSlides] arrive, whatever the
    network did, the fetched list is not empty and replaces the slide
    list, [current] is [0], and the call no longer waits.  When the first
    entry is neither [null] nor [undefined] and none of its properties
    [title], [desc], [img] and [url] is an object, the handler ends
    normally, the render targets show the first slide, and exactly one
    timer, a new one, is scheduled. *)
Theorem arrival_shows_first_slide
    (s : state) (k : nat) (w : Browser) (url : string) :
  reachable s -> nth_error (loading s) k = Some url ->
  exists first rest,
    fst (fetchSlidesFromItch w url []) = Normal (first :: rest) /\
    let s' := step (Arrival k w) s in
    slides s' = first :: rest /\ current s' = 0 /\
    loading s' = remove_nth k (loading s) /\
    (nullish first = false -> showable first ->
     fst (handle (Arrival k w) s) = Normal tt /\
     view s' = rendered first (itchUrl s) /\
     timer s' = VNum (next_handle s) /\ intervals s' = [next_handle s]).
Proof.
  intros Hr Hk. pose proof (reachable_timer_ok s Hr) as Hok.
  destruct (fetchSlides_nonempty w url []) as (fetched & Hf & Hne).
  destruct fetched as [| first rest]; [congruence |].
  exists first, rest. split; [exact Hf |].
  unfold step. rewrite (handle_arrival k w s url _ Hk Hf).
  set (s0 := set_loading (remove_nth k (loading s)) s).
  destruct (nullish first) eqn:Hx.
  - rewrite loadSlides_resume_throw by exact Hx. cbv zeta. cbn [fst snd].
    split; [reflexivity | split; [reflexivity | split; [reflexivity |]]].
    discriminate.
  - assert (Hok0 : timer_ok s0) by exact Hok.
    destruct (loadSlides_resume_normal first rest s0 Hx Hok0)
      as (H1 & H2 & H3 & H4 & H5 & H6 & H7 & H8).
    cbv zeta. repeat split; assumption.
Qed.

Lemma arrival_shows_first_slide_witness :
  reachable (step WindowLoad (initial Example.blank_view 1)) /\
  title_textContent
    (view (step (Arrival 0 Example.offline)
             (step WindowLoad (initial Example.blank_view 1))))
  = VStr "Sample Game 1".
Proof.
  assert (Hr : reachable (step WindowLoad (initial Example.blank_view 1))).
  { apply reach_step, reach_initial. reflexivity. }
  split; [exact Hr |].
  destruct (arrival_shows_first_slide _ 0%nat Example.offline
              DEFAULT_ITCH_URL Hr eq_refl) as (first & rest & Hf & H).
  vm_compute in Hf. injection Hf as <- <-.
  destruct H as (_ & _ & _ & H).
  destruct H as (_ & H & _); [reflexivity | repeat split; reflexivity |].
  rewrite H. reflexivity.
Defined.

(** X15.  When the first entry of the fetched list is [null] (the proxy
    array is taken as it is), [loadSlides] ends with a [TypeError] at line
    135: the slide list is replaced and [current] is [0], but no slide is
    shown and line 136 is not reached, so the timer is neither stopped nor
    started. *)
Theorem arrival_of_null_starts_no_timer
    (s : state) (k : nat) (w : Browser) (url : string) (first : value)
    (rest : list value) :
  nth_error (loading s) k = Some url ->
  fst (fetchSlidesFromItch w url []) = Normal (first :: rest) ->
  nullish first = true ->
  fst (handle (Arrival k w) s) = Throw TypeError /\
  let s' := step (Arrival k w) s in
  slides s' = first :: rest /\ current s' = 0 /\
  timer s' = timer s /\ intervals s' = intervals s /\
  view s' = animate "" (view s).
Proof.
  intros Hk Hf Hx. unfold step. rewrite (handle_arrival k w s url _ Hk Hf).
  rewrite loadSlides_resume_throw by exact Hx. cbn. repeat split.
Qed.

Lemma arrival_of_null_starts_no_timer_witness :
  fst (handle (Arrival 0 null_proxy_browser)
         (step WindowLoad (initial Example.blank_view 1)))
  = Throw TypeError /\
  intervals (step (Arrival 0 null_proxy_browser)
               (step WindowLoad (initial Example.blank_view 1))) = [].
Proof.
  destruct (arrival_of_null_starts_no_timer
              (step WindowLoad (initial Example.blank_view 1)) 0%nat
              null_proxy_browser DEFAULT_ITCH_URL VNull [])
    as (H1 & _ & _ & _ & H2 & _); try reflexivity.
  split; [exact H1 | rewrite H2; reflexivity].
Defined.

(* ===================================================================== *)
(** ** The slides of the direct tier *)
(* ===================================================================== *)

Lemma and_then_string e f :
  (forall x, exists t, f x = VStr t) -> string_or_null (and_then e f).
Proof.
  intros Hf. destruct e as [x |]; simpl; [right; apply Hf | now left].
Qed.

Lemma or_else_string a b :
  string_or_null a -> string_or_null b -> string_or_null (or_else a b).
Proof.
  intros Ha Hb. unfold or_else. destruct (truthy a); assumption.
Qed.

(** A chain of [||] that ends in a string literal yields a string, and a
    non-empty one when the literal is not empty. *)
Lemma or_else_literal a d :
  string_or_null a ->
  exists t, or_else a (VStr d) = VStr t /\ (d <> EmptyString -> t <> EmptyString).
Proof.
  intros [-> | [x ->]]; unfold or_else; simpl.
  - exists d. auto.
  - destruct x as [| c r]; simpl.
    + exists d. auto.
    + exists (String c r). split; [reflexivity | discriminate].
Qed.

Lemma trimmed_text_string x : exists t, trimmed_text x = VStr t.
Proof. eexists. reflexivity. Qed.

(** A candidate that passes the filter of line 87 is a well-formed slide. *)
Lemma candidate_well_formed w doc url n :
  has_url (candidate w doc url n) = true -> well_formed (candidate w doc url n).
Proof.
  intros Hu. rewrite has_url_candidate in Hu. unfold candidate.
  match goal with
  | |- well_formed (slide (or_else ?a (VStr "Untitled")) (or_else ?b (VStr "")) _ _) =>
      assert (Ha : string_or_null a);
      [| assert (Hb : string_or_null b);
         [| destruct (or_else_literal a "Untitled" Ha) as (t & -> & Ht);
            destruct (or_else_literal b "" Hb) as (d & -> & _) ] ]
  end.
  - repeat apply or_else_string; apply and_then_string;
      intros x; (apply trimmed_text_string || (eexists; reflexivity)).
  - apply and_then_string. apply trimmed_text_string.
  - exists t, d, (node_img w doc url n), (node_href w doc url n).
    split; [reflexivity | split].
    + apply Ht. discriminate.
    + intros E. rewrite E in Hu. discriminate.
Qed.

Lemma sampleSlides_well_formed : Forall well_formed sampleSlides.
Proof.
  repeat constructor; do 4 eexists; (split; [reflexivity | split; discriminate]).
Qed.

Lemma parsed_well_formed w doc url nodes :
  Forall well_formed (parsed w doc url nodes).
Proof.
  apply Forall_forall. intros c Hc. unfold parsed in Hc.
  apply filter_In in Hc. destruct Hc as [Hin Hu].
  apply in_map_iff in Hin. destruct Hin as (n & <- & _).
  now apply candidate_well_formed.
Qed.

Lemma parsed_length w doc url nodes :
  (List.length (parsed w doc url nodes) <= 12)%nat.
Proof.
  unfold parsed.
  pose proof (filter_length_le has_url
                (map (candidate w doc url) (firstn 12 nodes))) as H.
  rewrite length_map in H.
  pose proof (firstn_le_length 12 nodes). lia.
Qed.

(** What the direct tier returns: the fallback slides, or the slides made
    from the nodes of the fetched page. *)
Lemma direct_tier_cases w url log :
  fst (direct_tier w url log) = Normal sampleSlides \/
  exists doc nodes,
    fst (direct_tier w url log) = Normal (parsed w doc url nodes) /\
    parsed w doc url nodes <> [].
Proof.
  unfold direct_tier, try_catch, direct_fetch, bind, do_fetch.
  destruct (fetch w url) as [res |]; [| now left].
  destruct (ok res); simpl; [| now left].
  destruct (text res) as [markup |]; simpl; [| now left].
  destruct (parsed w (parseFromString w markup) url
              (matched_nodes w (parseFromString w markup)))
    as [| x xs] eqn:E; simpl; [now left |].
  right. exists (parseFromString w markup),
    (matched_nodes w (parseFromString w markup)).
  rewrite E. split; [reflexivity | discriminate].
Qed.

Lemma well_formed_not_nullish v : well_formed v -> nullish v = false.
Proof. intros (t & d & i & u & -> & _). reflexivity. Qed.

Lemma well_formed_showable v : well_formed v -> showable v.
Proof. intros (t & d & i & u & -> & _). repeat split; reflexivity. Qed.

(** X16.  When the proxy tier fails, [fetchSlidesFromItch] returns at
    least one and at most twelve slides. *)
Theorem direct_slides_between_1_and_12
    (w : Browser) (url : string) (log : requests) :
  proxy_failure w url ->
  exists fetched,
    fst (fetchSlidesFromItch w url log) = Normal fetched /\
    (1 <= List.length fetched <= 12)%nat.
Proof.
  intros Hf. rewrite fetchSlides_after_failure by exact Hf.
  destruct (direct_tier_cases w url (log ++ [apiUrl url]))
    as [-> | (doc & nodes & -> & Hne)].
  - exists sampleSlides. split; [reflexivity | simpl; lia].
  - exists (parsed w doc url nodes). split; [reflexivity |].
    pose proof (parsed_length w doc url nodes).
    destruct (parsed w doc url nodes); [congruence | simpl in *; lia].
Qed.

Lemma direct_slides_between_1_and_12_witness :
  proxy_failure Example.cells_browser "https://site.example/list" /\
  List.length
    (match fst (fetchSlidesFromItch Example.cells_browser
                  "https://site.example/list" []) with
     | Normal fetched => fetched
     | Throw _ => []
     end) = 1%nat.
Proof.
  assert (Hf : proxy_failure Example.cells_browser "https://site.example/list").
  { apply proxy_rejects. reflexivity. }
  split; [exact Hf |].
  destruct (direct_slides_between_1_and_12 Example.cells_browser
              "https://site.example/list" [] Hf) as (fetched & Hn & _).
  rewrite Hn. vm_compute in Hn. injection Hn as <-. reflexivity.
Defined.

(** X17.  When the proxy tier fails and the page that the direct request
    brings has no [svg] and no [math] element (so that the [href] of each
    link is a string), every slide that [fetchSlidesFromItch] returns is an
    object with the four properties [title], [desc], [img] and [url], all
    strings, the title and the link target not empty.  So [showSlide]
    never falls back to its own defaults for the title and the link of such
    a slide, and never throws on it. *)
Theorem direct_slides_well_formed
    (w : Browser) (url : string) (log : requests) :
  proxy_failure w url ->
  (forall res markup, fetch w url = Some res -> text res = Some markup ->
     html_only (parseFromString w markup)) ->
  exists fetched,
    fst (fetchSlidesFromItch w url log) = Normal fetched /\
    Forall well_formed fetched /\
    Forall (fun v => nullish v = false) fetched /\
    Forall showable fetched.
Proof.
  intros Hf _. rewrite fetchSlides_after_failure by exact Hf.
  assert (H : forall l, Forall well_formed l ->
                        Forall (fun v => nullish v = false) l).
  { intros l Hl. eapply Forall_impl; [| exact Hl].
    intros v. apply well_formed_not_nullish. }
  assert (H' : forall l, Forall well_formed l -> Forall showable l).
  { intros l Hl. eapply Forall_impl; [| exact Hl].
    intros v. apply well_formed_showable. }
  destruct (direct_tier_cases w url (log ++ [apiUrl url]))
    as [-> | (doc & nodes & -> & _)].
  - exists sampleSlides. split; [reflexivity |].
    split; [| split; [apply H | apply H']]; apply sampleSlides_well_formed.
  - exists (parsed w doc url nodes). split; [reflexivity |].
    split; [| split; [apply H | apply H']]; apply parsed_well_formed.
Qed.

Lemma html_only_serving url markup body t :
  html_only (Example.page "https://widget.example/" body) ->
  html_only (parseFromString (Example.serving url markup body) t).
Proof.
  intros H. cbn [parseFromString Example.serving].
  destruct (String.eqb t markup); [exact H | split; reflexivity].
Qed.

Lemma direct_slides_well_formed_witness :
  proxy_failure Example.image_browser "https://site.example/list" /\
  exists fetched,
    fst (fetchSlidesFromItch Example.image_browser
           "https://site.example/list" []) = Normal fetched /\
    Forall well_formed fetched.
Proof.
  assert (Hf : proxy_failure Example.image_browser "https://site.example/list").
  { apply proxy_rejects. reflexivity. }
  split; [exact Hf |].
  destruct (direct_slides_well_formed Example.image_browser
              "https://site.example/list" [] Hf) as (fetched & H1 & H2 & _).
  - intros res markup _ _. apply html_only_serving. split; reflexivity.
  - exists fetched. split; assumption.
Defined.

(** X18.  When the proxy tier fails and the page that the direct request
    brings has no [svg] and no [math] element, the arrival of the slides
    always ends normally: the first slide, a well-formed one, is on the
    render targets with its own title and link, and exactly one timer is
    scheduled. *)
Theorem arrival_after_proxy_failure
    (s : state) (k : nat) (w : Browser) (url : string) :
  reachable s -> nth_error (loading s) k = Some url -> proxy_failure w url ->
  (forall res markup, fetch w url = Some res -> text res = Some markup ->
     html_only (parseFromString w markup)) ->
  let s' := step (Arrival k w) s in
  fst (handle (Arrival k w) s) = Normal tt /\
  Forall well_formed (slides s') /\
  intervals s' = [next_handle s] /\
  exists t d i u rest,
    slides s' = slide (VStr t) (VStr d) (VStr i) (VStr u) :: rest /\
    t <> EmptyString /\ u <> EmptyString /\
    title_textContent (view s') = VStr t /\
    img_alt (view s') = VStr t /\
    link_href (view s') = VStr u.
Proof.
  intros Hr Hk Hfail _ s'. subst s'.
  pose proof (reachable_timer_ok s Hr) as Hok.
  assert (Hd : exists fetched,
             fst (fetchSlidesFromItch w url []) = Normal fetched /\
             Forall well_formed fetched /\ fetched <> []).
  { rewrite fetchSlides_after_failure by exact Hfail.
    destruct (direct_tier_cases w url ([] ++ [apiUrl url]))
      as [-> | (doc & nodes & -> & Hne)].
    - exists sampleSlides. split; [reflexivity |].
      split; [apply sampleSlides_well_formed | discriminate].
    - exists (parsed w doc url nodes). split; [reflexivity |].
      split; [apply parsed_well_formed | exact Hne]. }
  destruct Hd as (fetched & Hf & Hwf & Hne).
  destruct fetched as [| first rest]; [congruence |].
  pose proof (Forall_inv Hwf) as Hfirst.
  pose proof (well_formed_not_nullish first Hfirst) as Hx.
  unfold step. rewrite (handle_arrival k w s url _ Hk Hf).
  set (s0 := set_loading (remove_nth k (loading s)) s).
  assert (Hok0 : timer_ok s0) by exact Hok.
  destruct (loadSlides_resume_normal first rest s0 Hx Hok0)
    as (H1 & H2 & H3 & H4 & H5 & H6 & _).
  split; [exact H1 | split; [now rewrite H2 | split; [exact H6 |]]].
  destruct Hfirst as (t & d & i & u & -> & Ht & Hu).
  exists t, d, i, u, rest. rewrite H2, H4.
  split; [reflexivity | split; [exact Ht | split; [exact Hu |]]].
  unfold rendered, field, or_else. simpl.
  rewrite !is_empty_false by assumption. repeat split.
Qed.

Lemma arrival_after_proxy_failure_witness :
  reachable (step (KeyDown "F2" (Some "site.example/list"))
               (initial Example.blank_view 1)) /\
  proxy_failure Example.image_browser "https://site.example/list" /\
  fst (handle (Arrival 0 Example.image_browser)
         (step (KeyDown "F2" (Some "site.example/list"))
            (initial Example.blank_view 1))) = Normal tt.
Proof.
  assert (Hr : reachable (step (KeyDown "F2" (Some "site.example/list"))
                            (initial Example.blank_view 1))).
  { apply reach_step, reach_initial. reflexivity. }
  assert (Hf : proxy_failure Example.image_browser "https://site.example/list").
  { apply proxy_rejects. reflexivity. }
  split; [exact Hr | split; [exact Hf |]].
  destruct (arrival_after_proxy_failure _ 0%nat Example.image_browser
              "https://site.example/list" Hr eq_refl Hf) as [H _].
  - intros res markup _ _. apply html_only_serving. split; reflexivity.
  - exact H.
Defined.

(* ===================================================================== *)
(** ** The source URL *)
(* ===================================================================== *)

Lemma keeps_stopAuto_timer (P : state -> Prop) :
  (forall t s, P s -> P (set_timer t s)) ->
  (forall l h s, P s -> P (set_intervals l h s)) ->
  keeps P stopAuto.
Proof.
  intros Ht Hi s Hs. unfold stopAuto, bind, gets.
  destruct (truthy (timer s)); [| exact Hs].
  destruct (timer s); simpl; try (now apply Ht).
  apply Ht. now apply Hi.
Qed.

Lemma keeps_startAuto_timer (P : state -> Prop) :
  (forall t s, P s -> P (set_timer t s)) ->
  (forall l h s, P s -> P (set_intervals l h s)) ->
  keeps P startAuto.
Proof.
  intros Ht Hi s Hs. rewrite startAuto_unfold. simpl.
  apply Ht, Hi. now apply keeps_stopAuto_timer.
Qed.

Lemma Forall_remove_nth {A} (P : A -> Prop) k l :
  Forall P l -> Forall P (remove_nth k l).
Proof.
  intros H. revert k. induction H as [| x l Hx Hl IH]; intros [| k]; simpl;
    auto.
Qed.

Lemma source_ok_loadSlides_begin u : keeps source_ok (loadSlides_begin u).
Proof.
  intros s [Hu Hl]. unfold loadSlides_begin, bind, modify, gets. simpl.
  assert (H : (if Str.is_empty u then itchUrl s else u) <> EmptyString).
  { destruct u; simpl; [exact Hu | discriminate]. }
  split; simpl; [exact H |].
  apply Forall_app. split; [exact Hl | now constructor].
Qed.

Lemma source_ok_showSlide i : keeps source_ok (showSlide i).
Proof. apply keeps_showSlide; intros ? s H; exact H. Qed.

Lemma source_ok_startAuto : keeps source_ok startAuto.
Proof. apply keeps_startAuto_timer; intros; assumption. Qed.

Lemma source_ok_stopAuto : keeps source_ok stopAuto.
Proof. apply keeps_stopAuto_timer; intros; assumption. Qed.

Lemma source_ok_loadSlides_resume l : keeps source_ok (loadSlides_resume l).
Proof.
  unfold loadSlides_resume.
  apply keeps_bind; [apply keeps_modify; intros s H; exact H |].
  intros _. apply keeps_bind; [apply source_ok_showSlide |].
  intros _. apply source_ok_startAuto.
Qed.

Lemma source_ok_handle e : keeps source_ok (handle e).
Proof.
  destruct e as [key answer | | | | h | k w]; cbn [handle].
  - apply keeps_on_keydown.
    + unfold nextSlide. apply keeps_bind; [apply keeps_gets |].
      intros c. apply source_ok_showSlide.
    + unfold prevSlide. apply keeps_bind; [apply keeps_gets |].
      intros c. apply source_ok_showSlide.
    + apply source_ok_startAuto.
    + apply source_ok_loadSlides_begin.
  - apply source_ok_stopAuto.
  - apply source_ok_startAuto.
  - apply source_ok_loadSlides_begin.
  - apply keeps_bind; [apply keeps_gets |]. intros a. apply keeps_when.
    unfold nextSlide. apply keeps_bind; [apply keeps_gets |].
    intros c. apply source_ok_showSlide.
  - intros s Hs. apply snd_bind; [discriminate |].
    intros waiting Hw. cbn in Hw. injection Hw as <-. cbn [gets snd].
    destruct (nth_error (loading s) k) as [url |]; [| exact Hs].
    apply snd_bind; [discriminate |]. intros [] _. cbn [modify snd].
    assert (Hs0 : source_ok (set_loading (remove_nth k (loading s)) s)).
    { destruct Hs as [Hu Hl]. split; [exact Hu |].
      now apply Forall_remove_nth. }
    destruct (fst (fetchSlidesFromItch w url [])).
    + now apply source_ok_loadSlides_resume.
    + exact Hs0.
Qed.

(** X19.  The source URL is never the empty string, and neither is any
    URL whose slides are being fetched: line 133 keeps the previous source
    URL when it is called without one, and the script starts from the
    default.  So [fetchSlidesFromItch] is never called with an empty URL,
    and the link written by line 118 is never empty. *)
Theorem source_url_never_empty (s : state) :
  reachable s ->
  itchUrl s <> EmptyString /\ Forall (fun u => u <> EmptyString) (loading s).
Proof.
  induction 1 as [v h Hh | e s _ IH].
  - split; [discriminate | constructor].
  - now apply source_ok_handle.
Qed.

Lemma source_url_never_empty_witness :
  reachable (step (KeyDown "F2" (Some "x.itch.io"))
               (initial Example.blank_view 1)) /\
  itchUrl (step (KeyDown "F2" (Some "x.itch.io"))
             (initial Example.blank_view 1)) <> EmptyString.
Proof.
  assert (Hr : reachable (step (KeyDown "F2" (Some "x.itch.io"))
                            (initial Example.blank_view 1))).
  { apply reach_step, reach_initial. reflexivity. }
  split; [exact Hr |].
  destruct (source_url_never_empty _ Hr) as [H _]. exact H.
Defined.

(* ===================================================================== *)
(** ** The scan for links *)
(* ===================================================================== *)










(* ===================================================================== *)
(** ** The regular expression of line 75 *)
(* ===================================================================== *)

Lemma starts_with_iff p s :
  Str.starts_with p s = true <-> exists post, s = (p ++ post)%string.
Proof.
  unfold Str.starts_with. revert s.
  induction p as [| c p IH]; intros s.
  - split; [intros _; now exists s | intros _; now destruct s].
  - destruct s as [| d s]; simpl.
    + split; [discriminate | intros [post H]; discriminate].
    + destruct (ascii_dec c d) as [-> | Hne].
      * rewrite IH. split; intros [post H]; exists post.
        -- now rewrite H.
        -- now injection H.
      * split; [discriminate |]. intros [post H]. injection H as H1 H2.
        congruence.
Qed.

Lemma append_assoc a b c : ((a ++ b) ++ c = a ++ (b ++ c))%string.
Proof. induction a as [| x a IH]; simpl; [reflexivity | now rewrite IH]. Qed.

(** [s.includes(needle)] is true exactly when [needle] occurs in [s]. *)
Lemma includes_iff needle s :
  Str.includes needle s = true <->
  exists pre post, s = (pre ++ needle ++ post)%string.
Proof.
  induction s as [| c s IH]; cbn [Str.includes].
  - destruct (Str.starts_with needle EmptyString) eqn:E.
    + split; [intros _ | reflexivity].
      apply starts_with_iff in E. destruct E as [post E].
      now exists EmptyString, post.
    + split; [discriminate |]. intros (pre & post & H).
      destruct pre; simpl in H; [| discriminate].
      assert (Str.starts_with needle EmptyString = true)
        by (apply starts_with_iff; now exists post).
      congruence.
  - destruct (Str.starts_with needle (String c s)) eqn:E.
    + split; [intros _ | reflexivity].
      apply starts_with_iff in E. destruct E as [post E].
      now exists EmptyString, post.
    + rewrite IH. split.
      * intros (pre & post & ->). now exists (String c pre), post.
      * intros (pre & post & H). destruct pre as [| d pre]; simpl in H.
        -- assert (Str.starts_with needle (String c s) = true)
             by (apply starts_with_iff; now exists post).
           congruence.
        -- injection H as _ ->. now exists pre, post.
Qed.

Ltac known_char c H :=
  destruct c as [[] [] [] [] [] [] [] []]; try discriminate H.

Lemma itch_io_here_iff s :
  Str.itch_io_here s = true <->
  exists x post,
    s = ("itch" ++ String x ("io" ++ post))%string /\
    Str.is_line_terminator x = false.
Proof.
  split.
  - intros H.
    destruct s as [| c1 s]; [discriminate |]. known_char c1 H.
    destruct s as [| c2 s]; [discriminate |]. known_char c2 H.
    destruct s as [| c3 s]; [discriminate |]. known_char c3 H.
    destruct s as [| c4 s]; [discriminate |]. known_char c4 H.
    destruct s as [| x s]; [discriminate |].
    destruct s as [| c6 s]; [discriminate |]. known_char c6 H.
    destruct s as [| c7 s]; [discriminate |]. known_char c7 H.
    exists x, s. split; [reflexivity |].
    cbn [Str.itch_io_here] in H. now apply negb_true_iff in H.
  - intros (x & post & -> & Hx). cbn. now rewrite Hx.
Qed.

(** The pattern [/itch.io/] accepts a string exactly when it holds
    [itch], then any one character that is not a line break, then [io]. *)
Lemma test_itch_io_iff (s : string) :
  Str.test_itch_io s = true <->
  exists pre x post,
    s = (pre ++ "itch" ++ String x ("io" ++ post))%string /\
    Str.is_line_terminator x = false.
Proof.
  induction s as [| c s IH].
  - cbn. split; [discriminate |]. intros (pre & x & post & H & _).
    destruct pre; discriminate.
  - cbn [Str.test_itch_io].
    destruct (Str.itch_io_here (String c s)) eqn:E.
    + split; [intros _ | reflexivity].
      apply itch_io_here_iff in E. destruct E as (x & post & E & Hx).
      now exists EmptyString, x, post.
    + rewrite IH. split.
      * intros (pre & x & post & -> & Hx). now exists (String c pre), x, post.
      * intros (pre & x & post & H & Hx). destruct pre as [| d pre].
        -- assert (Str.itch_io_here (String c s) = true)
             by (apply itch_io_here_iff; now exists x, post).
           congruence.
        -- simpl in H. injection H as _ ->. now exists pre, x, post.
Qed.

(** X21.  The filter of line 75 keeps a link exactly when its [href] holds
    [itch], then any one character that is not a line break, then [io], or
    holds [/games/].  The dot of the pattern [/itch.io/] is not escaped, so
    the character after [itch] need not be a dot. *)
Theorem game_link_accepts (w : Browser) (doc : Dom.document) (a : Dom.located) :
  game_link w doc a = true <->
  (exists pre x post,
     href w doc a = (pre ++ "itch" ++ String x ("io" ++ post))%string /\
     Str.is_line_terminator x = false) \/
  (exists pre post, href w doc a = (pre ++ "/games/" ++ post)%string).
Proof.
  unfold game_link. rewrite orb_true_iff.
  rewrite test_itch_io_iff, includes_iff. reflexivity.
Qed.

(* ===================================================================== *)
(** ** Selectors and titles *)
(* ===================================================================== *)

Lemma first_matching_skip doc pre rest :
  (forall p, In p pre -> Dom.querySelectorAll doc p = []) ->
  first_matching doc (pre ++ rest) = first_matching doc rest.
Proof.
  induction pre as [| p pre IH]; intros H; simpl; [reflexivity |].
  rewrite (H p) by (now left). simpl. apply IH.
  intros q Hq. apply H. now right.
Qed.

(** X22.  The nodes come from one selector only: the first of the list
    that matches anything.  What later selectors match is not used, and
    neither is the scan for links. *)
Theorem first_selector_wins
    (w : Browser) (doc : Dom.document) (pre post : list Dom.selector)
    (sel : Dom.selector) :
  selectors = pre ++ sel :: post ->
  (forall p, In p pre -> Dom.querySelectorAll doc p = []) ->
  Dom.querySelectorAll doc sel <> [] ->
  matched_nodes w doc = Dom.querySelectorAll doc sel.
Proof.
  intros Hs Hpre Hsel. unfold matched_nodes. rewrite Hs.
  rewrite first_matching_skip by exact Hpre. cbn [first_matching].
  destruct (Dom.querySelectorAll doc sel) as [| x xs]; [congruence |].
  reflexivity.
Qed.

Lemma first_selector_wins_witness :
  List.length
    (matched_nodes Example.cells_browser
       (parseFromString Example.cells_browser Example.cells_markup)) = 2%nat.
Proof.
  rewrite (first_selector_wins Example.cells_browser
             (parseFromString Example.cells_browser Example.cells_markup)
             [Dom.ByClass "game-column"; Dom.ByClass "game_column"]
             [Dom.ByClass "project_cell"; Dom.ByClass "game_cell_wrapper"]
             (Dom.ByClass "game_cell")).
  - reflexivity.
  - reflexivity.
  - intros p [<- | [<- | []]]; reflexivity.
  - discriminate.
Defined.



